(** * Syndrome-measurement benchmarks for the [[8,6,2]] and [[6,4,2]] codes

    A shallow embedding of the four Python modules

    - [(8,6,2)_code/(8,6,2)_DD.py]        (module [DD])
    - [(8,6,2)_code/(8,6,2)_hardware.py]  (module [HW8])
    - [simulations/(6,4,2)_sim_dd.py]     (module [Sim6])
    - [six_four_two_code/six_four_two_v2.py] (module [V2])

    The Python code builds a [QuantumCircuit] by calling mutating methods
    ([qc.h], [qc.cx], ...) that append one instruction each.  Here the
    circuit is threaded explicitly: every method takes the circuit and
    returns the extended one, and a [for] loop is a left fold over the
    iterated sequence.  Floating point numbers are idealised as rationals. *)

From Stdlib Require Import ZArith QArith Lia Lqa.
From stdpp Require Import gmap strings list fin_maps.

Open Scope string_scope.
Open Scope list_scope.

(** ** Registers, bits and instructions *)

Record QuantumRegister := mkQReg { qsize : nat; qname : string }.
Record ClassicalRegister := mkCReg { csize : nat; cname : string }.

(** A qubit is a register together with an index into it ([data[i]]). *)
Record Qubit := mkQubit { qreg : QuantumRegister; qidx : nat }.

(** A classical bit is an index into the single classical register. *)
Definition Clbit := nat.

Inductive Kind1 := Kh | Kx | Ky | Kz.

Inductive Operation :=
| SingleQubitGate (k : Kind1) (q : Qubit)
| ControlledGate (control target : Qubit)
| Measure (q : Qubit) (b : Clbit)
| Reset (q : Qubit)
| Barrier.

Record QuantumCircuit := mkCircuit {
  qregs : list QuantumRegister;
  cregs : list ClassicalRegister;
  ops : list Operation
}.

#[global] Instance QuantumRegister_eq_dec : EqDecision QuantumRegister.
Proof. solve_decision. Defined.
#[global] Instance Qubit_eq_dec : EqDecision Qubit.
Proof. solve_decision. Defined.
#[global] Instance Kind1_eq_dec : EqDecision Kind1.
Proof. solve_decision. Defined.
#[global] Instance Operation_eq_dec : EqDecision Operation.
Proof. solve_decision. Defined.

(** Indexing [reg[i]], for quantum and classical registers alike. *)
Class GetItem (R A : Type) := getitem : R → nat → A.
#[global] Hint Mode GetItem ! - : typeclass_instances.

Definition qget (r : QuantumRegister) (i : nat) : Qubit := mkQubit r i.
Definition cget (c : ClassicalRegister) (i : nat) : Clbit := i.

#[global] Instance QuantumRegister_getitem : GetItem QuantumRegister Qubit := qget.
#[global] Instance ClassicalRegister_getitem : GetItem ClassicalRegister Clbit := cget.

Notation "r .[ i ]" := (getitem r i) (at level 1, left associativity, format "r .[ i ]").

(** [for q in reg] iterates over the qubits of the register in index order. *)
Definition qubits (r : QuantumRegister) : list Qubit :=
  map (qget r) (seq 0 (qsize r)).

(** Python's [range(a, b)] and [range(b)]. *)
Definition range2 (a b : nat) : list nat := seq a (b - a).
Definition range (b : nat) : list nat := range2 0 b.

(** A [for] loop whose body mutates the state [s]. *)
Definition for_ {A S : Type} (l : list A) (body : A → S → S) (s : S) : S :=
  fold_left (λ s a, body a s) l s.

(** The circuit methods: each appends one instruction. *)
Definition append (qc : QuantumCircuit) (o : Operation) : QuantumCircuit :=
  mkCircuit (qregs qc) (cregs qc) (ops qc ++ [o]).

Definition h (qc : QuantumCircuit) (q : Qubit) := append qc (SingleQubitGate Kh q).
Definition x (qc : QuantumCircuit) (q : Qubit) := append qc (SingleQubitGate Kx q).
Definition y (qc : QuantumCircuit) (q : Qubit) := append qc (SingleQubitGate Ky q).
Definition z (qc : QuantumCircuit) (q : Qubit) := append qc (SingleQubitGate Kz q).
Definition cx (qc : QuantumCircuit) (c t : Qubit) := append qc (ControlledGate c t).
Definition measure (qc : QuantumCircuit) (q : Qubit) (b : Clbit) := append qc (Measure q b).
Definition reset (qc : QuantumCircuit) (q : Qubit) := append qc (Reset q).
Definition barrier (qc : QuantumCircuit) := append qc Barrier.

(** [qc.reset(reg)] broadcasts over the register. *)
Definition reset_register (qc : QuantumCircuit) (r : QuantumRegister) :=
  for_ (qubits r) (λ q qc, reset qc q) qc.

(** The name under which the noise model looks an instruction up. *)
Definition op_name (o : Operation) : string :=
  match o with
  | SingleQubitGate Kh _ => "h"
  | SingleQubitGate Kx _ => "x"
  | SingleQubitGate Ky _ => "y"
  | SingleQubitGate Kz _ => "z"
  | ControlledGate _ _ => "cx"
  | Measure _ _ => "measure"
  | Reset _ => "reset"
  | Barrier => "barrier"
  end.

(** The qubits an instruction acts on. *)
Definition op_qubits (o : Operation) : list Qubit :=
  match o with
  | SingleQubitGate _ q => [q]
  | ControlledGate c t => [c; t]
  | Measure q _ => [q]
  | Reset q => [q]
  | Barrier => []
  end.

(** ** Noise channels and the noise model

    [pauli_error] takes a list of (Pauli label, probability) terms.  A
    [NoiseModel] maps an instruction name to the errors attached to it;
    attaching a second error to a name that already has one composes the
    two, which is kept here as the list of attached channels in the order
    of attachment.

    The library normalises what it is given: [pauli_error] drops terms of
    probability zero and refuses a negative term or a total other than 1,
    and an error that has become the identity is not stored.  The term
    lists below are therefore what the library holds for strengths
    strictly between 0 and 1, where every term the sources write is
    positive; the theorem that lists the stored terms carries that range. *)

Definition Channel := list (string * Q).

Definition pauli_error (terms : list (string * Q)) : Channel := terms.

(** [a.tensor(b)]: independent draws, one per qubit. *)
Definition tensor (a b : Channel) : Channel :=
  flat_map (λ ta, map (λ tb, (ta.1 +:+ tb.1, (ta.2 * tb.2)%Q)) b) a.

Definition NoiseModel := gmap string (list Channel).

Definition add_all_qubit_quantum_error
    (nm : gmap string (list Channel)) (error : Channel) (instructions : list string)
    : gmap string (list Channel) :=
  for_ instructions (λ name nm, <[name := default [] (nm !! name) ++ [error]]> nm) nm.

(** The channels the simulator applies after an instruction of that name. *)
Definition channels_on (nm : gmap string (list Channel)) (name : string) : list Channel :=
  default [] (nm !! name).

(** ** The simulation backend

    [AerSimulator(...).run(qc, shots).result().get_counts()] is the one
    external call of the simulation modules.  A call is recorded as a
    [Job]; the backend answers the [k]-th call of a program run with an
    outcome table.  Programs that call the backend live in the state monad
    [Sim], whose state is the log of the jobs submitted so far. *)

Record AerSimulator := mkAer { method : string; noise_model : gmap string (list Channel) }.

Record Job := mkJob { job_sim : AerSimulator; job_circuit : QuantumCircuit; job_shots : Z }.

Definition Backend := nat → Job → gmap string Z.

Definition Sim (A : Type) : Type := list Job → A * list Job.

#[global] Instance Sim_ret : MRet Sim := λ A a log, (a, log).
#[global] Instance Sim_bind : MBind Sim := λ A B f m log,
  let '(a, log') := m log in f a log'.

Definition run (backend : Backend) (sim : AerSimulator) (qc : QuantumCircuit) (shots : Z)
    : Sim (gmap string Z) :=
  λ log, let job := mkJob sim qc shots in (backend (length log) job, log ++ [job]).

(** A [for] loop whose body calls the backend. *)
Fixpoint for_M {A S : Type} (l : list A) (body : A → S → Sim S) (s : S) : Sim S :=
  match l with
  | [] => mret s
  | a :: l => s' ← body a s; for_M l body s'
  end.

(** [sum(counts.values())] *)
Definition values (counts : gmap string Z) : list Z := (map_to_list counts).*2.
Definition sum (l : list Z) : Z := foldr Z.add 0%Z l.

(** [counts.get(key, dflt)] *)
Definition get (counts : gmap string Z) (key : string) (dflt : Z) : Z :=
  default dflt (counts !! key).

(** Python exceptions raised by the modelled code. *)
Inductive Exn := ZeroDivisionError.
Inductive PyResult (A : Type) := Returns (a : A) | Raises (e : Exn).
Arguments Returns {A} a.
Arguments Raises {A} e.

(** Programs that call the backend and may raise: an exception ends the
    program, and nothing is submitted after it. *)
Definition SimE (A : Type) : Type := list Job → PyResult A * list Job.

#[global] Instance SimE_ret : MRet SimE := λ A a log, (Returns a, log).
#[global] Instance SimE_bind : MBind SimE := λ A B f m log,
  match m log with
  | (Returns a, log') => f a log'
  | (Raises e, log') => (Raises e, log')
  end.

(** A backend call inside such a program, and the result of a pure call
    that may raise. *)
Definition call {A : Type} (m : Sim A) : SimE A :=
  λ log, let '(a, log') := m log in (Returns a, log').

Definition eval {A : Type} (r : PyResult A) : SimE A := λ log, (r, log).

Fixpoint for_ME {A S : Type} (l : list A) (body : A → S → SimE S) (s : S) : SimE S :=
  match l with
  | [] => mret s
  | a :: l => s' ← body a s; for_ME l body s'
  end.

(** ** The hardware device

    [run_on_hardware] and [hardware_dd] translate the circuit for a device,
    submit it and read the outcome table back; all of that is the vendor's
    library.  A call is recorded as a [Submission]; the device answers the
    [k]-th call of a program run with an outcome table.  [hardware_dd]
    also receives the strategy name. *)

Record Submission := mkSub {
  sub_name : option string;
  sub_circuit : QuantumCircuit;
  sub_shots : Z
}.

Definition Device := nat → Submission → gmap string Z.

Definition Hw (A : Type) : Type := list Submission → A * list Submission.

#[global] Instance Hw_ret : MRet Hw := λ A a log, (a, log).
#[global] Instance Hw_bind : MBind Hw := λ A B f m log,
  let '(a, log') := m log in f a log'.

Definition submit (device : Device) (sub : Submission) : Hw (gmap string Z) :=
  λ log, (device (length log) sub, log ++ [sub]).

(** A [for] loop over the items of a dict, in insertion order, whose body
    calls the device. *)
Fixpoint for_H {A S : Type} (l : list A) (body : A → S → Hw S) (s : S) : Hw S :=
  match l with
  | [] => mret s
  | a :: l => s' ← body a s; for_H l body s'
  end.

(** ** Circuit fragments of [(8,6,2)_DD.py] *)

Module DD.

Definition prep_qubits :=
  let data := mkQReg 8 "data" in
  let anc := mkQReg 4 "anc" in
  let c := mkCReg 2 "c" in
  let qc := mkCircuit [data; anc] [c] [] in
  (qc, data, anc, c).

Definition encode_dfs_logical_zero (qc : QuantumCircuit) (data : QuantumRegister) :=
  let qc := for_ (range2 1 8) (λ i qc, cx qc data.[0] data.[i]) qc in
  let qc := for_ (qubits data) (λ q qc, h qc q) qc in
  let qc := for_ (range2 1 8) (λ i qc, cx qc data.[0] data.[i]) qc in
  let qc := for_ (qubits data) (λ q qc, h qc q) qc in
  qc.

Definition dynamical_decoupling (qc : QuantumCircuit) (data : QuantumRegister) :=
  let qc := for_ (qubits data) (λ q qc, x qc q) qc in
  let qc := barrier qc in
  let qc := for_ (qubits data) (λ q qc, y qc q) qc in
  qc.

Definition stabilizer_measurements (qc : QuantumCircuit)
    (data anc : QuantumRegister) (c : ClassicalRegister) :=
  (* Z parity *)
  let qc := for_ (range 8) (λ i qc, cx qc data.[i] anc.[0]) qc in
  let qc := measure qc anc.[0] c.[0] in
  let qc := reset qc anc.[0] in
  (* X parity *)
  let qc := for_ (range 8) (λ i qc,
              let qc := h qc data.[i] in
              let qc := cx qc data.[i] anc.[1] in
              let qc := h qc data.[i] in
              qc) qc in
  let qc := measure qc anc.[1] c.[1] in
  let qc := reset qc anc.[1] in
  qc.

Definition leakage_elimination_operation (qc : QuantumCircuit) (data : QuantumRegister) :=
  for_ (qubits data) (λ q qc, z qc q) qc.

Definition leakage_noise_model (p p_leak : option Q) : gmap string (list Channel) :=
  let p := default 0.02%Q p in
  let p_leak := default 0.01%Q p_leak in
  let pauli := pauli_error [
    ("X", p / 3);
    ("Y", p / 3);
    ("Z", p / 3);
    ("I", 1 - p)
  ]%Q in
  let leak := pauli_error [
    ("I", 1 - p_leak);
    ("Z", p_leak)
  ]%Q in
  let noise_model : gmap string (list Channel) := ∅ in
  let noise_model := add_all_qubit_quantum_error noise_model pauli ["h"] in
  let noise_model := add_all_qubit_quantum_error noise_model (tensor pauli pauli) ["cx"] in
  let noise_model := add_all_qubit_quantum_error noise_model leak ["h"] in
  noise_model.

(** [valid / total] is the exact quotient here; Python rounds it to the
    nearest double. *)
Definition postselection_rate (counts : gmap string Z) : Q :=
  let total := sum (values counts) in
  let valid := get counts "00" 0 in
  if decide (total > 0)%Z then inject_Z valid / inject_Z total else 0.

Section Simulation.
Context (backend : Backend).

Definition circuit_mid_circuit (shots : option Z) (p p_leak : option Q) : Sim (gmap string Z) :=
  let shots := default 2000%Z shots in
  let p := default 0.02%Q p in
  let p_leak := default 0.01%Q p_leak in
  let '(qc, data, anc, c) := prep_qubits in
  let qc := encode_dfs_logical_zero qc data in

  let qc := dynamical_decoupling qc data in
  let qc := leakage_elimination_operation qc data in
  let qc := barrier qc in

  let qc := stabilizer_measurements qc data anc c in

  let qc := dynamical_decoupling qc data in
  let qc := leakage_elimination_operation qc data in
  let qc := barrier qc in

  let sim := mkAer "density_matrix" (leakage_noise_model (Some p) (Some p_leak)) in
  run backend sim qc shots.

Definition circuit_deferred (shots : option Z) (p p_leak : option Q) : Sim (gmap string Z) :=
  let shots := default 2000%Z shots in
  let p := default 0.02%Q p in
  let p_leak := default 0.01%Q p_leak in
  let '(qc, data, anc, c) := prep_qubits in
  let qc := encode_dfs_logical_zero qc data in

  let qc := dynamical_decoupling qc data in
  let qc := leakage_elimination_operation qc data in
  let qc := barrier qc in

  let qc := for_ (range 8) (λ i qc,
              let qc := cx qc data.[i] anc.[0] in
              let qc := h qc data.[i] in
              let qc := cx qc data.[i] anc.[1] in
              let qc := h qc data.[i] in
              qc) qc in

  let qc := measure qc anc.[0] c.[0] in
  let qc := measure qc anc.[1] c.[1] in

  let sim := mkAer "density_matrix" (leakage_noise_model (Some p) (Some p_leak)) in
  run backend sim qc shots.

Definition circuit_control (shots : option Z) (p p_leak : option Q) : Sim (gmap string Z) :=
  let shots := default 2000%Z shots in
  let p := default 0.02%Q p in
  let p_leak := default 0.01%Q p_leak in
  let '(qc, data, _, c) := prep_qubits in
  let qc := encode_dfs_logical_zero qc data in

  let qc := dynamical_decoupling qc data in
  let qc := leakage_elimination_operation qc data in

  let qc := measure qc data.[0] c.[0] in

  let sim := mkAer "density_matrix" (leakage_noise_model (Some p) (Some p_leak)) in
  run backend sim qc shots.

(** The three result lists are the loop state; [append] on a Python list
    is [++ [_]]. *)
Definition run_benchmarks (noise_vals : list Q) (shots : option Z)
    : Sim (list Q * list Q * list Q) :=
  let shots := default 2000%Z shots in
  for_M noise_vals (λ p '(mid, deferred, control),
    counts ← circuit_mid_circuit (Some shots) (Some p) None;
    let mid := mid ++ [postselection_rate counts] in
    counts ← circuit_deferred (Some shots) (Some p) None;
    let deferred := deferred ++ [postselection_rate counts] in
    counts ← circuit_control (Some shots) (Some p) None;
    let control := control ++ [postselection_rate counts] in
    mret (mid, deferred, control)) ([], [], []).

End Simulation.

End DD.

(** ** Circuit fragments of [(8,6,2)_hardware.py]

    The hardware modules build the same kind of circuits and hand them to
    a device; only the circuit builders and the analyzer are embedded. *)

Module HW8.

Definition prep_qubits :=
  let data := mkQReg 8 "data" in
  let anc := mkQReg 2 "anc" in
  let c := mkCReg 2 "c" in
  let qc := mkCircuit [data; anc] [c] [] in
  (qc, data, anc, c).

Definition encode_dfs_logical_zero (qc : QuantumCircuit) (data : QuantumRegister) :=
  let qc := for_ (range2 1 8) (λ i qc, cx qc data.[0] data.[i]) qc in
  let qc := for_ (qubits data) (λ q qc, h qc q) qc in
  let qc := for_ (range2 1 8) (λ i qc, cx qc data.[0] data.[i]) qc in
  let qc := for_ (qubits data) (λ q qc, h qc q) qc in
  qc.

Definition leakage_elimination_operation (qc : QuantumCircuit) (data : QuantumRegister) :=
  for_ (qubits data) (λ q qc, z qc q) qc.

Definition stabilizer_measurements (qc : QuantumCircuit)
    (data anc : QuantumRegister) (c : ClassicalRegister) :=
  let qc := for_ (range 8) (λ i qc, cx qc data.[i] anc.[0]) qc in
  let qc := measure qc anc.[0] c.[0] in
  let qc := reset qc anc.[0] in
  let qc := for_ (range 8) (λ i qc,
              let qc := h qc data.[i] in
              let qc := cx qc data.[i] anc.[1] in
              let qc := h qc data.[i] in
              qc) qc in
  let qc := measure qc anc.[1] c.[1] in
  let qc := reset qc anc.[1] in
  qc.

Definition circuit_mid_circuit : QuantumCircuit :=
  let '(qc, data, anc, c) := prep_qubits in
  let qc := encode_dfs_logical_zero qc data in
  let qc := leakage_elimination_operation qc data in
  let qc := barrier qc in
  let qc := stabilizer_measurements qc data anc c in
  let qc := leakage_elimination_operation qc data in
  qc.

Definition circuit_deferred : QuantumCircuit :=
  let '(qc, data, anc, c) := prep_qubits in
  let qc := encode_dfs_logical_zero qc data in
  let qc := for_ (range 8) (λ i qc,
              let qc := cx qc data.[i] anc.[0] in
              let qc := h qc data.[i] in
              let qc := cx qc data.[i] anc.[1] in
              let qc := h qc data.[i] in
              qc) qc in
  let qc := measure qc anc.[0] c.[0] in
  let qc := measure qc anc.[1] c.[1] in
  qc.

Definition circuit_control : QuantumCircuit :=
  let '(qc, data, _, c) := prep_qubits in
  let qc := encode_dfs_logical_zero qc data in
  let qc := measure qc data.[0] c.[0] in
  let qc := measure qc data.[1] c.[1] in
  qc.

Definition postselection_rate (counts : gmap string Z) : Q :=
  let total := sum (values counts) in
  let valid := get counts "00" 0 in
  if decide (total > 0)%Z then inject_Z valid / inject_Z total else 0.

Section Hardware.
Context (device : Device).

Definition run_on_hardware (qc : QuantumCircuit) (shots : option Z) : Hw (gmap string Z) :=
  let shots := default 2000%Z shots in
  submit device (mkSub None qc shots).

Definition run_benchmarks (shots : option Z) : Hw (gmap string Q) :=
  let shots := default 2000%Z shots in
  let circuits := [
    ("mid-circuit", circuit_mid_circuit);
    ("deferred", circuit_deferred);
    ("control", circuit_control)
  ] in
  let results : gmap string Q := ∅ in
  for_H circuits (λ '(name, qc) results,
    counts ← run_on_hardware qc (Some shots);
    let results := <[name := postselection_rate counts]> results in
    mret results) results.

End Hardware.

End HW8.

(** ** Circuit fragments of [six_four_two_v2.py] *)

Module V2.

Definition prep_qubits :=
  let data := mkQReg 6 "data" in
  let anc := mkQReg 2 "anc" in
  let c := mkCReg 2 "c" in
  let qc := mkCircuit [data; anc] [c] [] in
  (qc, data, anc, c).

Definition encode_logical_zero (qc : QuantumCircuit) (data : QuantumRegister) :=
  let qc := h qc data.[0] in
  let qc := for_ (range2 1 6) (λ i qc, cx qc data.[0] data.[i]) qc in
  qc.

Definition leakage_elimination_operation (qc : QuantumCircuit) (data : QuantumRegister) :=
  for_ (qubits data) (λ q qc, z qc q) qc.

Definition stabilizer_measurements (qc : QuantumCircuit)
    (data anc : QuantumRegister) (c : ClassicalRegister) :=
  (* ZZZZZZ *)
  let qc := for_ (range 6) (λ i qc, cx qc data.[i] anc.[0]) qc in
  let qc := measure qc anc.[0] c.[0] in
  let qc := reset qc anc.[0] in
  (* XXXXXX *)
  let qc := for_ (range 6) (λ i qc,
              let qc := h qc data.[i] in
              let qc := cx qc data.[i] anc.[1] in
              let qc := h qc data.[i] in
              qc) qc in
  let qc := measure qc anc.[1] c.[1] in
  let qc := reset qc anc.[1] in
  qc.

Definition circuit_mid_circuit : QuantumCircuit :=
  let '(qc, data, anc, c) := prep_qubits in
  let qc := encode_logical_zero qc data in
  let qc := leakage_elimination_operation qc data in
  let qc := barrier qc in
  let qc := stabilizer_measurements qc data anc c in
  let qc := leakage_elimination_operation qc data in
  qc.

Definition circuit_deferred : QuantumCircuit :=
  let '(qc, data, anc, c) := prep_qubits in
  let qc := encode_logical_zero qc data in
  let qc := for_ (range 6) (λ i qc,
              let qc := cx qc data.[i] anc.[0] in
              let qc := h qc data.[i] in
              let qc := cx qc data.[i] anc.[1] in
              let qc := h qc data.[i] in
              qc) qc in
  let qc := measure qc anc.[0] c.[0] in
  let qc := measure qc anc.[1] c.[1] in
  qc.

Definition circuit_control : QuantumCircuit :=
  let '(qc, data, _, c) := prep_qubits in
  let qc := encode_logical_zero qc data in
  let qc := measure qc data.[0] c.[0] in
  let qc := measure qc data.[1] c.[1] in
  qc.

Definition postselection_rate (counts : gmap string Z) : Q :=
  let total := sum (values counts) in
  if decide (total > 0)%Z then inject_Z (get counts "00" 0) / inject_Z total else 0.

Section Hardware.
Context (device : Device).

Definition run_on_hardware (qc : QuantumCircuit) (shots : option Z) : Hw (gmap string Z) :=
  let shots := default 2000%Z shots in
  submit device (mkSub None qc shots).

(** The scheduling and padding passes of [hardware_dd] run inside the
    vendor's library; the call is recorded with the strategy name it
    receives. *)
Definition hardware_dd (name : string) (qc : QuantumCircuit) (shots : option Z)
    : Hw (gmap string Z) :=
  let shots := default 2000%Z shots in
  submit device (mkSub (Some name) qc shots).

Definition run_hardware_benchmarks (shots : option Z) : Hw (gmap string Q) :=
  let shots := default 2000%Z shots in
  let circuits := [
    ("mid-circuit", circuit_mid_circuit);
    ("deferred", circuit_deferred);
    ("control", circuit_control)
  ] in
  let results : gmap string Q := ∅ in
  for_H circuits (λ '(name, qc) results,
    counts ← run_on_hardware qc (Some shots);
    let results := <[name := postselection_rate counts]> results in
    mret results) results.

Definition run_hardware_benchmarks_2 (shots : option Z) : Hw (gmap string Q) :=
  let shots := default 2000%Z shots in
  let circuits := [
    ("mid-circuit", circuit_mid_circuit);
    ("deferred", circuit_deferred);
    ("control", circuit_control)
  ] in
  let results : gmap string Q := ∅ in
  for_H circuits (λ '(name, qc) results,
    counts ← hardware_dd name qc (Some shots);
    let results := <[name := postselection_rate counts]> results in
    mret results) results.

End Hardware.

End V2.

(** ** Circuit fragments of [(6,4,2)_sim_dd.py] *)

Module Sim6.

Definition prep_qubits :=
  let data := mkQReg 6 "data" in
  let anc := mkQReg 4 "ancilla" in
  let c := mkCReg 2 "c" in
  let qc := mkCircuit [data; anc] [c] [] in
  (qc, data, anc, c).

Definition encode_logical_zero (qc : QuantumCircuit) (data : QuantumRegister) :=
  (* GHZ preparation *)
  let qc := h qc data.[0] in
  let qc := cx qc data.[0] data.[1] in
  let qc := cx qc data.[0] data.[2] in
  let qc := cx qc data.[0] data.[3] in
  let qc := cx qc data.[0] data.[4] in
  let qc := cx qc data.[0] data.[5] in
  qc.

Definition s1_meas (qc : QuantumCircuit) (q : QuantumRegister) (anc : Qubit) (cbit : Clbit) :=
  let qc := for_ (range 6) (λ i qc, cx qc q.[i] anc) qc in
  let qc := measure qc anc cbit in
  qc.

Definition s2_meas (qc : QuantumCircuit) (q : QuantumRegister) (anc : Qubit) (cbit : Clbit) :=
  let qc := for_ (range 6) (λ i qc,
              let qc := h qc q.[i] in
              let qc := cx qc q.[i] anc in
              let qc := h qc q.[i] in
              qc) qc in
  let qc := measure qc anc cbit in
  qc.

Definition dynamical_decoupling (qc : QuantumCircuit) (data : QuantumRegister) :=
  let qc := for_ (qubits data) (λ q qc, x qc q) qc in
  let qc := barrier qc in
  let qc := for_ (qubits data) (λ q qc, y qc q) qc in
  qc.

Definition stab_measurements (qc : QuantumCircuit)
    (data anc : QuantumRegister) (c : ClassicalRegister) :=
  let qc := s1_meas qc data anc.[0] c.[0] in
  let qc := reset qc anc.[0] in
  let qc := s2_meas qc data anc.[1] c.[1] in
  let qc := reset qc anc.[1] in
  qc.

Definition leakage_noise_model (p : option Q) : gmap string (list Channel) :=
  let p := default 0.05%Q p in
  (* Single-qubit leakage events *)
  let single_leak := pauli_error [
    ("X", p / 2);
    ("Z", p / 2);
    ("I", 1 - p)
  ]%Q in
  (* Two-qubit correlated leakage *)
  let two_leak := pauli_error [
    ("XX", p / 2);
    ("ZZ", p / 2);
    ("II", 1 - p)
  ]%Q in
  let noise : gmap string (list Channel) := ∅ in
  let noise := add_all_qubit_quantum_error noise single_leak ["h"] in
  let noise := add_all_qubit_quantum_error noise two_leak ["cx"] in
  noise.

(** No guard on [total] here: the division raises on an empty table. *)
Definition postselection_rate (counts : gmap string Z) : PyResult Q :=
  let total := sum (values counts) in
  let valid := get counts "00" 0 in
  if decide (total = 0)%Z then Raises ZeroDivisionError
  else Returns (inject_Z valid / inject_Z total)%Q.

Section Simulation.
Context (backend : Backend).

Definition simulation (shots : option Z) (p_noise : option Q) (do_reset : option bool)
    : Sim (QuantumCircuit * gmap string Z) :=
  let shots := default 500%Z shots in
  let p_noise := default 0.02%Q p_noise in
  let do_reset := default false do_reset in
  let '(qc, data, anc, c) := prep_qubits in
  let qc := encode_logical_zero qc data in
  let qc := dynamical_decoupling qc data in
  let qc := barrier qc in

  let qc := stab_measurements qc data anc c in

  let qc := dynamical_decoupling qc data in
  let qc := barrier qc in

  let qc := if do_reset then
              let qc := reset_register qc data in
              let qc := encode_logical_zero qc data in
              qc
            else qc in

  let simulator := mkAer "density_matrix" (leakage_noise_model (Some p_noise)) in
  counts ← run backend simulator qc shots;
  mret (qc, counts).

Definition circuit_control (shots : option Z) (p_noise : option Q) : Sim (gmap string Z) :=
  let shots := default 500%Z shots in
  let p_noise := default 0.02%Q p_noise in
  let '(qc, data, anc, c) := prep_qubits in
  let qc := encode_logical_zero qc data in

  let qc := dynamical_decoupling qc data in
  let qc := barrier qc in

  let qc := for_ (range 6) (λ i qc,
              let qc := cx qc data.[i] anc.[0] in
              let qc := h qc data.[i] in
              let qc := cx qc data.[i] anc.[1] in
              let qc := h qc data.[i] in
              qc) qc in

  let qc := measure qc anc.[0] c.[0] in
  let qc := measure qc anc.[1] c.[1] in

  let simulator := mkAer "density_matrix" (leakage_noise_model (Some p_noise)) in
  run backend simulator qc shots.

Definition circuit_deferred_measurement (shots : option Z) (p_noise : option Q)
    : Sim (gmap string Z) :=
  let shots := default 500%Z shots in
  let p_noise := default 0.02%Q p_noise in
  let '(qc, data, anc, c) := prep_qubits in

  let qc := encode_logical_zero qc data in

  let qc := dynamical_decoupling qc data in
  let qc := barrier qc in

  let qc := for_ (range 6) (λ i qc,
              let qc := cx qc data.[i] anc.[0] in
              let qc := h qc data.[i] in
              let qc := cx qc data.[i] anc.[1] in
              let qc := h qc data.[i] in
              qc) qc in

  (* measure at the end *)
  let qc := measure qc anc.[0] c.[0] in
  let qc := measure qc anc.[1] c.[1] in

  let simulator := mkAer "density_matrix" (leakage_noise_model (Some p_noise)) in
  run backend simulator qc shots.

(** The three result lists are the loop state.  A raising analyzer ends
    the sweep. *)
Definition run_benchmarks (noise_vals : list Q) (shots : option Z)
    : SimE (list Q * list Q * list Q) :=
  let shots := default 2000%Z shots in
  for_ME noise_vals (λ p '(mid_rates, control_rates, deferred_rates),
    (* mid-circuit *)
    '(_, counts_mid) ← call (simulation (Some shots) (Some p) (Some false));
    rate ← eval (postselection_rate counts_mid);
    let mid_rates := mid_rates ++ [rate] in
    (* no mid-circuit *)
    counts_control ← call (circuit_control (Some shots) (Some p));
    rate ← eval (postselection_rate counts_control);
    let control_rates := control_rates ++ [rate] in
    (* deferred *)
    counts_deferred ← call (circuit_deferred_measurement (Some shots) (Some p));
    rate ← eval (postselection_rate counts_deferred);
    let deferred_rates := deferred_rates ++ [rate] in
    mret (mid_rates, control_rates, deferred_rates)) ([], [], []).

End Simulation.

End Sim6.

(** ** Ideal (noise-free) semantics of a circuit

    The simulator is an imported library.  What it computes when no noise
    channel is attached is the standard meaning of the instructions the
    sources emit: start from all qubits zero, apply each gate's matrix in
    order, split on measurement and reset, record the classical bits.

    A state of [w] qubits is a perfect binary tree of depth [w]: the two
    subtrees of the root hold the amplitudes with qubit 0 equal to 0 and to
    1, and so on downwards.  Amplitudes are Gaussian integers and states
    are kept unnormalised: the Hadamard gate is applied as the matrix
    [[1 1; 1 -1]], that is sqrt 2 times the unitary, so a state stands for
    the ray it spans and a probability is a ratio of squared norms. *)

Record Amp := mkAmp { re : Z; im : Z }.

Definition azero : Amp := mkAmp 0 0.
Definition aone : Amp := mkAmp 1 0.
Definition ai : Amp := mkAmp 0 1.
Definition aadd (a b : Amp) : Amp := mkAmp (re a + re b) (im a + im b).
Definition asub (a b : Amp) : Amp := mkAmp (re a - re b) (im a - im b).
Definition aneg (a : Amp) : Amp := mkAmp (- re a) (- im a).
Definition amul (a b : Amp) : Amp :=
  mkAmp (re a * re b - im a * im b) (re a * im b + im a * re b).
Definition norm2 (a : Amp) : Z := re a * re a + im a * im a.

#[global] Instance Amp_eq_dec : EqDecision Amp.
Proof. solve_decision. Defined.

Inductive State := Leaf (a : Amp) | Node (s0 s1 : State).

#[global] Instance State_eq_dec : EqDecision State.
Proof. solve_decision. Defined.

Fixpoint smap (f : Amp → Amp) (s : State) : State :=
  match s with
  | Leaf a => Leaf (f a)
  | Node s0 s1 => Node (smap f s0) (smap f s1)
  end.

Fixpoint szip (f : Amp → Amp → Amp) (s t : State) : State :=
  match s, t with
  | Leaf a, Leaf b => Leaf (f a b)
  | Node s0 s1, Node t0 t1 => Node (szip f s0 t0) (szip f s1 t1)
  | _, _ => s
  end.

Definition scale (c : Amp) : State → State := smap (amul c).
Definition sneg : State → State := smap aneg.
Definition szero : State → State := smap (λ _, azero).
Definition sadd : State → State → State := szip aadd.
Definition ssub : State → State → State := szip asub.

Fixpoint weight (s : State) : Z :=
  match s with
  | Leaf a => norm2 a
  | Node s0 s1 => weight s0 + weight s1
  end.

(** A perfect tree of depth [w]. *)
Fixpoint wf (w : nat) (s : State) {struct s} : bool :=
  match w, s with
  | 0, Leaf _ => true
  | S w, Node s0 s1 => wf w s0 && wf w s1
  | _, _ => false
  end.

Fixpoint zero_state (w : nat) : State :=
  match w with
  | 0 => Leaf azero
  | S w => Node (zero_state w) (zero_state w)
  end.

(** The all-zero basis state on [w] qubits. *)
Fixpoint ket0 (w : nat) : State :=
  match w with
  | 0 => Leaf aone
  | S w => Node (ket0 w) (zero_state w)
  end.

(** The amplitude at a basis state, given as the list of qubit values. *)
Fixpoint amplitude (s : State) (bits : list bool) {struct s} : Amp :=
  match s, bits with
  | Leaf a, _ => a
  | Node s0 s1, b :: bits => amplitude (if b then s1 else s0) bits
  | Node s0 _, [] => amplitude s0 []
  end.

(** Apply a one-qubit map at qubit [k]: it receives the two halves of the
    state with qubit [k] equal to 0 and to 1. *)
Fixpoint on_qubit (f : State → State → State * State) (k : nat) (s : State) {struct s}
    : State :=
  match s with
  | Leaf a => Leaf a
  | Node s0 s1 =>
      match k with
      | 0 => let '(t0, t1) := f s0 s1 in Node t0 t1
      | S k => Node (on_qubit f k s0) (on_qubit f k s1)
      end
  end.

Definition gate1 (k : Kind1) : State → State → State * State :=
  match k with
  | Kh => λ s0 s1, (sadd s0 s1, ssub s0 s1)
  | Kx => λ s0 s1, (s1, s0)
  | Ky => λ s0 s1, (scale (aneg ai) s1, scale ai s0)
  | Kz => λ s0 s1, (s0, sneg s1)
  end.

(** [pick k s t]: [s] where qubit [k] is 0 and [t] where it is 1. *)
Fixpoint pick (k : nat) (s t : State) {struct s} : State :=
  match s, t with
  | Node s0 s1, Node t0 t1 =>
      match k with
      | 0 => Node s0 t1
      | S k => Node (pick k s0 t0) (pick k s1 t1)
      end
  | _, _ => s
  end.

(** Controlled NOT with control qubit [c] and target qubit [t]. *)
Fixpoint apply_cx (c t : nat) (s : State) {struct s} : State :=
  match s with
  | Leaf a => Leaf a
  | Node s0 s1 =>
      match c, t with
      | 0, 0 => s
      | 0, S t => Node s0 (on_qubit (gate1 Kx) t s1)
      | S c, 0 => Node (pick c s0 s1) (pick c s1 s0)
      | S c, S t => Node (apply_cx c t s0) (apply_cx c t s1)
      end
  end.

(** Projection onto qubit [k] having the value [b]. *)
Definition project (b : bool) : nat → State → State :=
  on_qubit (λ s0 s1, if b then (szero s0, s1) else (s0, szero s1)).

(** Position of a qubit among the circuit's qubits: registers are laid
    out in the order they were passed to [QuantumCircuit]. *)
Fixpoint offset (regs : list QuantumRegister) (r : QuantumRegister) : nat :=
  match regs with
  | [] => 0
  | r' :: regs => if decide (r' = r) then 0 else qsize r' + offset regs r
  end.

Definition qindex (qc : QuantumCircuit) (q : Qubit) : nat :=
  offset (qregs qc) (qreg q) + qidx q.

Definition width (qc : QuantumCircuit) : nat :=
  foldr (λ r n, qsize r + n) 0 (qregs qc).

Definition num_clbits (qc : QuantumCircuit) : nat :=
  foldr (λ c n, csize c + n) 0 (cregs qc).

(** One run of the circuit splits at every measurement and reset; a branch
    carries the classical bits written so far and the projected state. *)
Record Branch := mkBranch { clbits : list bool; state : State }.

Definition step (qc : QuantumCircuit) (o : Operation) (b : Branch) : list Branch :=
  match o with
  | SingleQubitGate k q =>
      [mkBranch (clbits b) (on_qubit (gate1 k) (qindex qc q) (state b))]
  | ControlledGate c t =>
      [mkBranch (clbits b) (apply_cx (qindex qc c) (qindex qc t) (state b))]
  | Measure q c =>
      [mkBranch (<[c := false]> (clbits b)) (project false (qindex qc q) (state b));
       mkBranch (<[c := true]> (clbits b)) (project true (qindex qc q) (state b))]
  | Reset q =>
      [mkBranch (clbits b) (project false (qindex qc q) (state b));
       mkBranch (clbits b)
         (on_qubit (gate1 Kx) (qindex qc q) (project true (qindex qc q) (state b)))]
  | Barrier => [b]
  end.

Definition exec (qc : QuantumCircuit) (os : list Operation) (bs : list Branch) : list Branch :=
  fold_left (λ bs o, flat_map (step qc o) bs) os bs.

Definition initial (qc : QuantumCircuit) : Branch :=
  mkBranch (replicate (num_clbits qc) false) (ket0 (width qc)).

Definition ideal_run (qc : QuantumCircuit) : list Branch :=
  exec qc (ops qc) [initial qc].

(** The key under which [get_counts] reports the classical bits: the
    highest bit comes first. *)
Definition bitstring (bits : list bool) : string :=
  fold_left (λ acc (b : bool), (if b then "1" else "0") +:+ acc) bits EmptyString.

Definition outcome_weight (bs : list Branch) (key : string) : Z :=
  sum (map (λ b, if decide (bitstring (clbits b) = key) then weight (state b) else 0%Z) bs).

Definition total_weight (bs : list Branch) : Z :=
  sum (map (λ b, weight (state b)) bs).

(** Probability that one noise-free shot of the circuit reports [key]. *)
Definition ideal_probability (qc : QuantumCircuit) (key : string) : Q :=
  inject_Z (outcome_weight (ideal_run qc) key) / inject_Z (total_weight (ideal_run qc)).

(** An outcome table a noise-free simulation of [shots] trials can return:
    the counts are nonnegative, sum to [shots] and sit on outcomes of
    nonzero probability. *)
Definition ideal_table (qc : QuantumCircuit) (shots : Z) (counts : gmap string Z) : Prop :=
  sum (values counts) = shots ∧
  map_Forall (λ key n, (0 ≤ n)%Z ∧ ((0 < n)%Z → (0 < outcome_weight (ideal_run qc) key)%Z)) counts.


(** ** Reference statements

    The jobs and circuits a program hands to the backend when started on
    an empty log. *)

Definition submitted {A : Type} (m : Sim A) : list Job := (m []).2.

Definition circuits {A : Type} (m : Sim A) : list QuantumCircuit :=
  map job_circuit (submitted m).

(** The stabilizer-measurement fragment in the words of the spec, for a
    code with [n] data qubits: the Z-type check, then the X-type check. *)
Definition spec_z_check (n : nat) (data anc : QuantumRegister) (c : ClassicalRegister)
    : list Operation :=
  map (λ i, ControlledGate data.[i] anc.[0]) (seq 0 n)
  ++ [Measure anc.[0] c.[0]; Reset anc.[0]].

Definition spec_x_check (n : nat) (data anc : QuantumRegister) (c : ClassicalRegister)
    : list Operation :=
  flat_map (λ i, [SingleQubitGate Kh data.[i];
                  ControlledGate data.[i] anc.[1];
                  SingleQubitGate Kh data.[i]]) (seq 0 n)
  ++ [Measure anc.[1] c.[1]; Reset anc.[1]].

Definition spec_stabilizer_measurement (n : nat) (data anc : QuantumRegister)
    (c : ClassicalRegister) : list Operation :=
  spec_z_check n data anc c ++ spec_x_check n data anc c.

(** The deferred parity sequence: for every data qubit, CNOT into ancilla
    0, then Hadamard, CNOT into ancilla 1, Hadamard; both ancillas are
    measured at the end. *)
Definition spec_deferred_checks (n : nat) (data anc : QuantumRegister) (c : ClassicalRegister)
    : list Operation :=
  flat_map (λ i, [ControlledGate data.[i] anc.[0];
                  SingleQubitGate Kh data.[i];
                  ControlledGate data.[i] anc.[1];
                  SingleQubitGate Kh data.[i]]) (seq 0 n)
  ++ [Measure anc.[0] c.[0]; Measure anc.[1] c.[1]].

(** The dynamical-decoupling fragment in the words of the spec. *)
Definition spec_dynamical_decoupling (data : QuantumRegister) : list Operation :=
  map (SingleQubitGate Kx) (qubits data) ++ [Barrier] ++ map (SingleQubitGate Ky) (qubits data).

(** The two logical-zero constructions of section 4.2 for a data register
    of any size. *)
Definition spec_cnot_cascade (data : QuantumRegister) : list Operation :=
  map (λ i, ControlledGate data.[0] data.[i]) (seq 1 (qsize data - 1)).

Definition spec_ghz_cascade (data : QuantumRegister) : list Operation :=
  SingleQubitGate Kh data.[0] :: spec_cnot_cascade data.

Definition spec_doubled (data : QuantumRegister) : list Operation :=
  spec_cnot_cascade data ++ map (SingleQubitGate Kh) (qubits data)
  ++ spec_cnot_cascade data ++ map (SingleQubitGate Kh) (qubits data).

(** Roles of qubits, and what a control circuit may contain. *)
Definition is_data (q : Qubit) : bool := String.eqb (qname (qreg q)) "data".

Definition touches_ancilla (o : Operation) : bool :=
  existsb (λ q, negb (is_data q)) (op_qubits o).

Definition measurements (qc : QuantumCircuit) : list (Qubit * Clbit) :=
  omap (λ o, match o with Measure q b => Some (q, b) | _ => None end) (ops qc).

(** A parity check couples a data qubit into an ancilla. *)
Definition is_parity_coupling (o : Operation) : bool :=
  match o with
  | ControlledGate c t => is_data c && negb (is_data t)
  | _ => false
  end.

(** The control baseline of section 4.3: one or two measurements, all of
    data qubits, and nothing that touches an ancilla or extracts a parity. *)
Definition control_baseline (qc : QuantumCircuit) : bool :=
  bool_decide (1 ≤ length (measurements qc) ≤ 2)%nat
  && forallb (λ m, is_data m.1) (measurements qc)
  && forallb (λ o, negb (touches_ancilla o)) (ops qc)
  && forallb (λ o, negb (is_parity_coupling o)) (ops qc).

(** The channels in the words of the spec (section 4.4). *)
Definition spec_depolarizing (p : Q) : Channel :=
  [("X", p / 3); ("Y", p / 3); ("Z", p / 3); ("I", 1 - p)]%Q.

Definition spec_leakage (p_leak : Q) : Channel :=
  [("Z", p_leak); ("I", 1 - p_leak)]%Q.

Definition spec_leakage2 (p : Q) : Channel :=
  [("XX", p / 2); ("ZZ", p / 2); ("II", 1 - p)]%Q.

(** A channel is one of the two leakage forms when it has exactly their
    terms, in any order. *)
Definition is_leakage_channel (p p_leak : Q) (ch : Channel) : Prop :=
  ch ≡ₚ spec_leakage p_leak ∨ ch ≡ₚ spec_leakage2 p.

Definition leakage_attached (nm : gmap string (list Channel)) (p p_leak : Q)
    (name : string) : Prop :=
  ∃ ch, ch ∈ channels_on nm name ∧ is_leakage_channel p p_leak ch.

(** The simulator of a sweep point: density-matrix method, depolarizing
    strength [p], leakage strength at its default. *)
Definition sweep_simulator (p : Q) : AerSimulator :=
  mkAer "density_matrix" (DD.leakage_noise_model (Some p) (Some 0.01%Q)).

(** Two unnormalised states stand for the same quantum state when they
    are nonzero multiples of each other. *)
Definition same_ray (s t : State) : Prop :=
  ∃ a b : Amp, a ≠ azero ∧ b ≠ azero ∧ scale a s = scale b t.

(** One gate kind on the [n] qubits starting at position [off]. *)
Definition layer (k : Kind1) (off n : nat) (s : State) : State :=
  fold_left (λ s i, on_qubit (gate1 k) i s) (seq off n) s.

(** The state after one dynamical-decoupling fragment on those qubits. *)
Definition dd_state (off n : nat) (s : State) : State :=
  layer Ky off n (layer Kx off n s).

(** The global phase picked up by two fragments on [n] qubits. *)
Fixpoint dd_phase (n : nat) : Amp :=
  match n with
  | 0 => aone
  | S n => aneg (dd_phase n)
  end.

(** A circuit on the same registers with further instructions. *)
Definition with_ops (qc : QuantumCircuit) (os : list Operation) : QuantumCircuit :=
  mkCircuit (qregs qc) (cregs qc) (ops qc ++ os).

(** A builder appends [os]: it keeps the registers and the instructions
    already in the circuit, and what it adds does not depend on them. *)
Definition appends (f : QuantumCircuit → QuantumCircuit) (os : list Operation) : Prop :=
  ∀ qc, f qc = with_ops qc os.

(** An instruction is in range for a circuit when its qubits belong to
    registers of the circuit and index into them, a controlled gate has
    two different operands and a measurement writes a declared bit. *)
Definition qubit_in_range (qc : QuantumCircuit) (q : Qubit) : bool :=
  bool_decide (qreg q ∈ qregs qc) && (qidx q <? qsize (qreg q))%nat.

Definition op_in_range (qc : QuantumCircuit) (o : Operation) : bool :=
  forallb (qubit_in_range qc) (op_qubits o)
  && match o with
     | ControlledGate c t => negb (bool_decide (c = t))
     | Measure _ b => (b <? num_clbits qc)%nat
     | _ => true
     end.

Definition well_formed (qc : QuantumCircuit) : bool :=
  forallb (op_in_range qc) (ops qc).

(** What a program submits to the device when started on an empty log. *)
Definition submissions {A : Type} (m : Hw A) : list Submission := (m []).2.

(** The leakage-elimination fragment in plain form. *)
Definition spec_leo (data : QuantumRegister) : list Operation :=
  map (SingleQubitGate Kz) (qubits data).

(** The global phase picked up by one dynamical-decoupling fragment
    followed by one leakage-elimination fragment on [n] qubits. *)
Fixpoint leo_phase (n : nat) : Amp :=
  match n with
  | 0 => aone
  | S n => amul (aneg ai) (leo_phase n)
  end.

(** The total probability of a channel. *)
Definition total_probability (ch : Channel) : Q :=
  foldr (λ t acc, (t.2 + acc)%Q) 0%Q ch.

Definition is_distribution (ch : Channel) : Prop :=
  Forall (λ t, (0 <= t.2)%Q) ch ∧ (total_probability ch == 1)%Q.

(** The noise-free probability of each of the four two-bit outcomes, in
    lowest terms. *)
Definition ideal_distribution (qc : QuantumCircuit) : list (string * Q) :=
  let bs := ideal_run qc in
  let total := total_weight bs in
  map (λ key, (key, Qred (inject_Z (outcome_weight bs key) / inject_Z total)))
    ["00"; "01"; "10"; "11"].

(** Every ancilla an instruction touches has an index below [n]. *)
Definition ancillas_below (n : nat) (qc : QuantumCircuit) : bool :=
  forallb (λ o, forallb (λ q, is_data q || (qidx q <? n)%nat) (op_qubits o)) (ops qc).

(** How many instructions of a circuit go by a given name. *)
Definition count_ops (name : string) (qc : QuantumCircuit) : nat :=
  length (filter (λ o, op_name o = name) (ops qc)).

(** * Properties *)

(** ** What the builders append *)

Lemma ops_append qc o : ops (append qc o) = ops qc ++ [o].
Proof. reflexivity. Qed.

Lemma regs_append qc o :
  qregs (append qc o) = qregs qc ∧ cregs (append qc o) = cregs qc.
Proof. split; reflexivity. Qed.

Lemma for_nil {A S} (body : A → S → S) s : for_ [] body s = s.
Proof. reflexivity. Qed.

Lemma for_cons {A S} (body : A → S → S) a l s :
  for_ (a :: l) body s = for_ l body (body a s).
Proof. reflexivity. Qed.

Lemma for_map {A B S} (g : A → B) (body : B → S → S) l s :
  for_ (map g l) body s = for_ l (λ a, body (g a)) s.
Proof.
  revert s. induction l as [|a l IH]; intros s; [reflexivity|].
  cbn [map]. rewrite !for_cons. apply IH.
Qed.

(** A loop whose body appends [f a] appends the concatenation of the
    [f a] in iteration order. *)
Lemma for_ops {A} (f : A → list Operation) (body : A → QuantumCircuit → QuantumCircuit) l qc :
  (∀ a qc, ops (body a qc) = ops qc ++ f a) →
  ops (for_ l body qc) = ops qc ++ flat_map f l.
Proof.
  intros Hbody. revert qc.
  induction l as [|a l IH]; intros qc.
  - cbn. by rewrite app_nil_r.
  - rewrite for_cons, IH, Hbody. cbn [flat_map]. by rewrite app_assoc.
Qed.

Lemma for_ops1 {A} (f : A → Operation) l qc :
  ops (for_ l (λ a qc, append qc (f a)) qc) = ops qc ++ map f l.
Proof.
  rewrite (for_ops (λ a, [f a])) by done.
  apply (f_equal (app (ops qc))).
  induction l as [|a l IH]; [done|].
  cbn [flat_map map app]. by rewrite IH.
Qed.

Lemma for_qregs {A} (body : A → QuantumCircuit → QuantumCircuit) l qc :
  (∀ a qc, qregs (body a qc) = qregs qc) →
  qregs (for_ l body qc) = qregs qc.
Proof.
  intros Hbody. revert qc.
  induction l as [|a l IH]; intros qc; [done|].
  by rewrite for_cons, IH, Hbody.
Qed.

Lemma for_cregs {A} (body : A → QuantumCircuit → QuantumCircuit) l qc :
  (∀ a qc, cregs (body a qc) = cregs qc) →
  cregs (for_ l body qc) = cregs qc.
Proof.
  intros Hbody. revert qc.
  induction l as [|a l IH]; intros qc; [done|].
  by rewrite for_cons, IH, Hbody.
Qed.

Lemma ops_h qc q : ops (h qc q) = ops qc ++ [SingleQubitGate Kh q].
Proof. reflexivity. Qed.
Lemma ops_x qc q : ops (x qc q) = ops qc ++ [SingleQubitGate Kx q].
Proof. reflexivity. Qed.
Lemma ops_y qc q : ops (y qc q) = ops qc ++ [SingleQubitGate Ky q].
Proof. reflexivity. Qed.
Lemma ops_z qc q : ops (z qc q) = ops qc ++ [SingleQubitGate Kz q].
Proof. reflexivity. Qed.
Lemma ops_cx qc c t : ops (cx qc c t) = ops qc ++ [ControlledGate c t].
Proof. reflexivity. Qed.
Lemma ops_measure qc q b : ops (measure qc q b) = ops qc ++ [Measure q b].
Proof. reflexivity. Qed.
Lemma ops_reset qc q : ops (reset qc q) = ops qc ++ [Reset q].
Proof. reflexivity. Qed.
Lemma ops_barrier qc : ops (barrier qc) = ops qc ++ [Barrier].
Proof. reflexivity. Qed.

Create Rewrite HintDb emit.
#[global] Hint Rewrite ops_h ops_x ops_y ops_z ops_cx ops_measure ops_reset ops_barrier : emit.

(** Push [ops] through a straight-line sequence of gate methods. *)
Ltac emit := autorewrite with emit; rewrite <- ?app_assoc; try reflexivity.

Lemma z_loop_ops n (data : QuantumRegister) (a : Qubit) qc :
  ops (for_ (range n) (λ i qc, cx qc data.[i] a) qc)
  = ops qc ++ map (λ i, ControlledGate data.[i] a) (seq 0 n).
Proof. unfold range, range2. rewrite Nat.sub_0_r. apply (for_ops1 (λ i, ControlledGate data.[i] a)). Qed.

Lemma x_loop_ops n (data : QuantumRegister) (a : Qubit) qc :
  ops (for_ (range n) (λ i qc,
         let qc := h qc data.[i] in
         let qc := cx qc data.[i] a in
         let qc := h qc data.[i] in
         qc) qc)
  = ops qc ++ flat_map (λ i, [SingleQubitGate Kh data.[i];
                              ControlledGate data.[i] a;
                              SingleQubitGate Kh data.[i]]) (seq 0 n).
Proof.
  unfold range, range2. rewrite Nat.sub_0_r.
  apply for_ops. intros i qc'. by emit.
Qed.

Lemma deferred_loop_ops n (data : QuantumRegister) (a0 a1 : Qubit) qc :
  ops (for_ (range n) (λ i qc,
         let qc := cx qc data.[i] a0 in
         let qc := h qc data.[i] in
         let qc := cx qc data.[i] a1 in
         let qc := h qc data.[i] in
         qc) qc)
  = ops qc ++ flat_map (λ i, [ControlledGate data.[i] a0;
                              SingleQubitGate Kh data.[i];
                              ControlledGate data.[i] a1;
                              SingleQubitGate Kh data.[i]]) (seq 0 n).
Proof.
  unfold range, range2. rewrite Nat.sub_0_r.
  apply for_ops. intros i qc'. by emit.
Qed.

(** C6: in every module the stabilizer-measurement fragment appends the
    Z-type check (CNOT from every data qubit into ancilla 0, measure into
    bit 0, reset ancilla 0) and only then the X-type check (Hadamard, CNOT
    into ancilla 1, Hadamard for every data qubit, measure into bit 1,
    reset ancilla 1), for the 8-qubit and the 6-qubit code alike. *)
Theorem C6_stabilizer_measurement_sequence :
  ∀ qc data anc c,
    ops (DD.stabilizer_measurements qc data anc c)
      = ops qc ++ spec_stabilizer_measurement 8 data anc c
    ∧ ops (HW8.stabilizer_measurements qc data anc c)
      = ops qc ++ spec_stabilizer_measurement 8 data anc c
    ∧ ops (Sim6.stab_measurements qc data anc c)
      = ops qc ++ spec_stabilizer_measurement 6 data anc c
    ∧ ops (V2.stabilizer_measurements qc data anc c)
      = ops qc ++ spec_stabilizer_measurement 6 data anc c.
Proof.
  intros qc data anc c.
  unfold spec_stabilizer_measurement, spec_z_check, spec_x_check.
  repeat split.
  - unfold DD.stabilizer_measurements. cbv zeta.
    autorewrite with emit. rewrite x_loop_ops. autorewrite with emit.
    rewrite z_loop_ops, <- !app_assoc. reflexivity.
  - unfold HW8.stabilizer_measurements. cbv zeta.
    autorewrite with emit. rewrite x_loop_ops. autorewrite with emit.
    rewrite z_loop_ops, <- !app_assoc. reflexivity.
  - unfold Sim6.stab_measurements, Sim6.s2_meas, Sim6.s1_meas. cbv zeta.
    autorewrite with emit. rewrite x_loop_ops. autorewrite with emit.
    rewrite z_loop_ops, <- !app_assoc. reflexivity.
  - unfold V2.stabilizer_measurements. cbv zeta.
    autorewrite with emit. rewrite x_loop_ops. autorewrite with emit.
    rewrite z_loop_ops, <- !app_assoc. reflexivity.
Qed.

(** ** The control strategy *)

(** The registers every module's [prep_qubits] declares. *)
Lemma prep_qubits_registers :
  DD.prep_qubits.1.1.2 = mkQReg 8 "data" ∧ DD.prep_qubits.1.2 = mkQReg 4 "anc"
  ∧ HW8.prep_qubits.1.1.2 = mkQReg 8 "data" ∧ HW8.prep_qubits.1.2 = mkQReg 2 "anc"
  ∧ Sim6.prep_qubits.1.1.2 = mkQReg 6 "data" ∧ Sim6.prep_qubits.1.2 = mkQReg 4 "ancilla"
  ∧ V2.prep_qubits.1.1.2 = mkQReg 6 "data" ∧ V2.prep_qubits.1.2 = mkQReg 2 "anc".
Proof. repeat split. Qed.

(** The control circuit of the 6-qubit simulation module couples every
    data qubit into both ancillas and measures the ancillas. *)
Lemma C3_counterexample :
  ¬ Forall (λ qc, control_baseline qc = true)
      (circuits (Sim6.circuit_control (λ _ _, ∅) (Some 500%Z) (Some 0.02%Q))).
Proof.
  intros Hall. apply Forall_inv in Hall. vm_compute in Hall. discriminate.
Qed.

(** C3: for every shot count and noise level, three of the four control
    circuits are the baseline the claim describes: the one of the 8-qubit
    simulation module measures exactly one data qubit, [data[0]] into bit
    0, those of the two hardware modules measure exactly [data[0]] into
    bit 0 and [data[1]] into bit 1, and none of the three touches an
    ancilla or couples a data qubit into one.  The control circuit of the
    6-qubit simulation module breaks the claim: it is a copy of the
    deferred circuit, runs both parity-check sequences onto the ancillas
    and measures ancillas 0 and 1 instead of data qubits. *)
Theorem C3_control_circuits :
  ∀ (backend : Backend) (shots : option Z) (p p_leak : option Q),
    (∃ qc, circuits (DD.circuit_control backend shots p p_leak) = [qc]
       ∧ control_baseline qc = true
       ∧ measurements qc = [((mkQReg 8 "data").[0], 0)])
    ∧ (control_baseline HW8.circuit_control = true
       ∧ measurements HW8.circuit_control
         = [((mkQReg 8 "data").[0], 0); ((mkQReg 8 "data").[1], 1)])
    ∧ (control_baseline V2.circuit_control = true
       ∧ measurements V2.circuit_control
         = [((mkQReg 6 "data").[0], 0); ((mkQReg 6 "data").[1], 1)])
    ∧ (∃ qc, circuits (Sim6.circuit_control backend shots p) = [qc]
       ∧ circuits (Sim6.circuit_deferred_measurement backend shots p) = [qc]
       ∧ control_baseline qc = false
       ∧ measurements qc
         = [((mkQReg 4 "ancilla").[0], 0); ((mkQReg 4 "ancilla").[1], 1)]).
Proof.
  intros backend shots p p_leak.
  split; [|split; [|split]].
  - eexists. split; [reflexivity|]. split; vm_compute; reflexivity.
  - split; vm_compute; reflexivity.
  - split; vm_compute; reflexivity.
  - eexists. split; [reflexivity|]. split; [reflexivity|].
    split; vm_compute; reflexivity.
Qed.

(** ** Control and deferred circuits of the 6-qubit simulation module *)

(** C9: in the 6-qubit simulation module the control strategy and the
    deferred strategy submit the same job for equal shot count and noise
    level: the same circuit (encode, dynamical decoupling, barrier, the
    interleaved parity sequences onto both ancillas, measurement of both
    ancillas), the same noise model and the same shot count.  Whatever the
    outcome distribution of a job is, it is therefore the same for both. *)
Theorem C9_control_equals_deferred :
  ∀ (backend : Backend) (shots : option Z) (p_noise : option Q),
    let '(_, data, anc, c) := Sim6.prep_qubits in
    submitted (Sim6.circuit_control backend shots p_noise)
      = submitted (Sim6.circuit_deferred_measurement backend shots p_noise)
    ∧ (∃ job, submitted (Sim6.circuit_control backend shots p_noise) = [job]
         ∧ ops (job_circuit job)
           = spec_ghz_cascade data ++ spec_dynamical_decoupling data ++ [Barrier]
             ++ spec_deferred_checks 6 data anc c
         ∧ job_shots job = default 500%Z shots
         ∧ noise_model (job_sim job)
           = Sim6.leakage_noise_model (Some (default 0.02%Q p_noise)))
    ∧ (∀ (D : Type) (distribution : Job → D),
         map distribution (submitted (Sim6.circuit_control backend shots p_noise))
         = map distribution (submitted (Sim6.circuit_deferred_measurement backend shots p_noise))).
Proof.
  intros backend shots p_noise. cbv beta iota zeta delta [Sim6.prep_qubits].
  split; [reflexivity|]. split.
  - eexists. split; [reflexivity|].
    split; [vm_compute; reflexivity|]. split; reflexivity.
  - intros D distribution. reflexivity.
Qed.

(** ** The noise models *)

Lemma add_error_one nm error name :
  add_all_qubit_quantum_error nm error [name]
  = <[name := default [] (nm !! name) ++ [error]]> nm.
Proof. reflexivity. Qed.

Lemma DD_noise_h p p_leak :
  channels_on (DD.leakage_noise_model (Some p) (Some p_leak)) "h"
  = [spec_depolarizing p; [("I", 1 - p_leak); ("Z", p_leak)]%Q].
Proof.
  unfold DD.leakage_noise_model, channels_on, pauli_error. cbv zeta.
  rewrite !add_error_one. by simplify_map_eq.
Qed.

Lemma DD_noise_cx p p_leak :
  channels_on (DD.leakage_noise_model (Some p) (Some p_leak)) "cx"
  = [tensor (spec_depolarizing p) (spec_depolarizing p)].
Proof.
  unfold DD.leakage_noise_model, channels_on, pauli_error. cbv zeta.
  rewrite !add_error_one. by simplify_map_eq.
Qed.

Lemma DD_noise_other p p_leak name :
  name ≠ "h" → name ≠ "cx" →
  channels_on (DD.leakage_noise_model (Some p) (Some p_leak)) name = [].
Proof.
  intros Hh Hcx.
  unfold DD.leakage_noise_model, channels_on, pauli_error. cbv zeta.
  rewrite !add_error_one. by simplify_map_eq.
Qed.

Lemma Sim6_noise_h p :
  channels_on (Sim6.leakage_noise_model (Some p)) "h"
  = [[("X", p / 2); ("Z", p / 2); ("I", 1 - p)]%Q].
Proof.
  unfold Sim6.leakage_noise_model, channels_on, pauli_error. cbv zeta.
  rewrite !add_error_one. by simplify_map_eq.
Qed.

Lemma Sim6_noise_cx p :
  channels_on (Sim6.leakage_noise_model (Some p)) "cx" = [spec_leakage2 p].
Proof.
  unfold Sim6.leakage_noise_model, channels_on, pauli_error. cbv zeta.
  rewrite !add_error_one. by simplify_map_eq.
Qed.

Lemma Sim6_noise_other p name :
  name ≠ "h" → name ≠ "cx" →
  channels_on (Sim6.leakage_noise_model (Some p)) name = [].
Proof.
  intros Hh Hcx.
  unfold Sim6.leakage_noise_model, channels_on, pauli_error. cbv zeta.
  rewrite !add_error_one. by simplify_map_eq.
Qed.

(** The product depolarizing channel has sixteen terms, so it is neither
    leakage form. *)
Lemma tensor_not_leakage p p_leak q :
  ¬ is_leakage_channel p p_leak (tensor (spec_depolarizing q) (spec_depolarizing q)).
Proof.
  intros [Hperm | Hperm]; apply Permutation_length in Hperm; discriminate.
Qed.

Lemma DD_cx_no_leakage p p_leak q q_leak :
  ¬ leakage_attached (DD.leakage_noise_model (Some q) (Some q_leak)) p p_leak "cx".
Proof.
  intros (ch & Hin & Hleak). rewrite DD_noise_cx in Hin.
  apply list_elem_of_singleton in Hin as ->.
  by apply tensor_not_leakage in Hleak.
Qed.

(** In the 8-qubit module nothing attached to the controlled gate is a
    leakage channel. *)
Lemma C5_counterexample :
  ¬ (leakage_attached (DD.leakage_noise_model (Some 0.02%Q) (Some 0.01%Q)) 0.02 0.01 "h"
     ∧ leakage_attached (DD.leakage_noise_model (Some 0.02%Q) (Some 0.01%Q)) 0.02 0.01 "cx").
Proof. intros [_ Hcx]. by apply DD_cx_no_leakage in Hcx. Qed.

(** C5 (amended): for strengths strictly between 0 and 1, in the 8-qubit
    module the leakage channel is {Z: p_leak, I: 1 - p_leak} and is
    attached to the Hadamard kind only, after the depolarizing channel;
    the controlled-gate kind carries only the product of two depolarizing
    channels.  In the 6-qubit simulation module the controlled-gate kind
    carries the correlated channel {XX: p/2, ZZ: p/2, II: 1 - p} and the
    Hadamard kind the single-qubit channel {X: p/2, Z: p/2, I: 1 - p}.
    No other operation kind carries a channel. *)
Theorem C5_leakage_channels :
  ∀ p p_leak : Q,
    (0 < p)%Q → (p < 1)%Q → (0 < p_leak)%Q → (p_leak < 1)%Q →
    let nm8 := DD.leakage_noise_model (Some p) (Some p_leak) in
    let nm6 := Sim6.leakage_noise_model (Some p) in
    channels_on nm8 "h" = [spec_depolarizing p; [("I", 1 - p_leak); ("Z", p_leak)]%Q]
    ∧ leakage_attached nm8 p p_leak "h"
    ∧ channels_on nm8 "cx" = [tensor (spec_depolarizing p) (spec_depolarizing p)]
    ∧ ¬ leakage_attached nm8 p p_leak "cx"
    ∧ channels_on nm6 "h" = [[("X", p / 2); ("Z", p / 2); ("I", 1 - p)]%Q]
    ∧ channels_on nm6 "cx" = [spec_leakage2 p]
    ∧ leakage_attached nm6 p p_leak "cx"
    ∧ (∀ name, name ≠ "h" → name ≠ "cx" →
         channels_on nm8 name = [] ∧ channels_on nm6 name = []).
Proof.
  intros p p_leak _ _ _ _ nm8 nm6. subst nm8 nm6.
  split; [apply DD_noise_h|].
  split.
  { exists [("I", 1 - p_leak); ("Z", p_leak)]%Q. split.
    - rewrite DD_noise_h. set_solver.
    - left. apply Permutation_swap. }
  split; [apply DD_noise_cx|].
  split; [apply DD_cx_no_leakage|].
  split; [apply Sim6_noise_h|].
  split; [apply Sim6_noise_cx|].
  split.
  { exists (spec_leakage2 p). split.
    - rewrite Sim6_noise_cx. set_solver.
    - by right. }
  intros name Hh Hcx. split.
  - by apply DD_noise_other.
  - by apply Sim6_noise_other.
Qed.

Lemma C5_leakage_channels_witness :
  let p := 0.02%Q in
  let p_leak := 0.01%Q in
  let nm8 := DD.leakage_noise_model (Some p) (Some p_leak) in
  let nm6 := Sim6.leakage_noise_model (Some p) in
  ((0 < p)%Q ∧ (p < 1)%Q ∧ (0 < p_leak)%Q ∧ (p_leak < 1)%Q)
  ∧ channels_on nm8 "h" = [spec_depolarizing p; [("I", 1 - p_leak); ("Z", p_leak)]%Q]
  ∧ leakage_attached nm8 p p_leak "h"
  ∧ channels_on nm8 "cx" = [tensor (spec_depolarizing p) (spec_depolarizing p)]
  ∧ ¬ leakage_attached nm8 p p_leak "cx"
  ∧ channels_on nm6 "h" = [[("X", p / 2); ("Z", p / 2); ("I", 1 - p)]%Q]
  ∧ channels_on nm6 "cx" = [spec_leakage2 p]
  ∧ leakage_attached nm6 p p_leak "cx"
  ∧ (∀ name, name ≠ "h" → name ≠ "cx" →
       channels_on nm8 name = [] ∧ channels_on nm6 name = []).
Proof.
  intros p p_leak nm8 nm6.
  assert (H0 : (0 < p)%Q) by reflexivity.
  assert (H1 : (p < 1)%Q) by reflexivity.
  assert (H2 : (0 < p_leak)%Q) by reflexivity.
  assert (H3 : (p_leak < 1)%Q) by reflexivity.
  split; [by repeat split|].
  exact (C5_leakage_channels p p_leak H0 H1 H2 H3).
Defined.

(** ** The benchmark driver of the 8-qubit module *)

Lemma for_M_cons {A S} (body : A → S → Sim S) a l s log :
  for_M (a :: l) body s log = for_M l body (body a s log).1 (body a s log).2.
Proof.
  cbn [for_M]. unfold mbind, Sim_bind. by destruct (body a s log).
Qed.

Lemma sweep_simulator_leak p :
  [("I", 1 - 0.01); ("Z", 0.01)]%Q ∈ channels_on (noise_model (sweep_simulator p)) "h".
Proof. cbn [sweep_simulator noise_model]. rewrite DD_noise_h. set_solver. Qed.

(** The log of a loop is the log before it followed by what the
    iterations submit, in order. *)
Lemma for_M_log {A S} (body : A → S → Sim S) (P : A → list Job → Prop) l s log :
  (∀ a s log, ∃ js, (body a s log).2 = log ++ js ∧ P a js) →
  ∃ jss, (for_M l body s log).2 = log ++ concat jss ∧ Forall2 P l jss.
Proof.
  intros Hbody. revert s log.
  induction l as [|a l IH]; intros s log.
  - exists []. split; [|constructor]. cbn. by rewrite app_nil_r.
  - rewrite for_M_cons.
    destruct (Hbody a s log) as (js & Hjs & HP).
    destruct (IH (body a s log).1 (body a s log).2) as (jss & Hjss & HPs).
    exists (js :: jss). split; [|by constructor].
    rewrite Hjss, Hjs. cbn [concat]. by rewrite app_assoc.
Qed.

(** One iteration of the sweep submits three jobs, all with the simulator
    of that sweep point. *)
Lemma run_benchmarks_step backend (shots : Z) (p : Q) (acc : list Q * list Q * list Q) log :
  ∃ js,
    ((let '(mid, deferred, control) := acc in
      counts ← DD.circuit_mid_circuit backend (Some shots) (Some p) None;
      let mid := mid ++ [DD.postselection_rate counts] in
      counts ← DD.circuit_deferred backend (Some shots) (Some p) None;
      let deferred := deferred ++ [DD.postselection_rate counts] in
      counts ← DD.circuit_control backend (Some shots) (Some p) None;
      let control := control ++ [DD.postselection_rate counts] in
      mret (mid, deferred, control)) log).2 = log ++ js
    ∧ (map job_sim js = replicate 3 (sweep_simulator p)
       ∧ Forall (λ j, job_shots j = shots) js).
Proof.
  destruct acc as [[mid deferred] control].
  eexists [_; _; _]. split.
  - unfold mbind, Sim_bind, mret, Sim_ret,
      DD.circuit_mid_circuit, DD.circuit_deferred, DD.circuit_control, run.
    cbv zeta. cbn [default DD.prep_qubits snd].
    rewrite <- !app_assoc. cbn [app]. reflexivity.
  - split; [reflexivity|]. repeat constructor.
Qed.

Lemma sweep_jobs (shots : Z) (l : list Q) (jss : list (list Job)) :
  Forall2 (λ p js, map job_sim js = replicate 3 (sweep_simulator p)
                   ∧ Forall (λ j, job_shots j = shots) js) l jss →
  map job_sim (concat jss) = flat_map (λ p, replicate 3 (sweep_simulator p)) l
  ∧ Forall (λ j, job_shots j = shots) (concat jss).
Proof.
  induction 1 as [|p js l jss [Hsim Hshots] _ [IHsim IHshots]]; [by split|].
  cbn [concat flat_map]. split.
  - by rewrite map_app, Hsim, IHsim.
  - by apply Forall_app.
Qed.

(** C10: the sweep of the 8-qubit driver varies only the depolarizing
    strength.  For every noise level of the list, three jobs are submitted
    in order, each with the noise model built from that level and the
    default leakage strength 0.01 and with the requested shot count; so
    the leakage channel {I: 0.99, Z: 0.01} is attached to the Hadamard
    kind at every sweep point, the point p = 0 included. *)
Theorem C10_sweep_varies_only_p :
  ∀ (backend : Backend) (noise_vals : list Q) (shots : option Z) (log : list Job),
    ∃ jobs,
      (DD.run_benchmarks backend noise_vals shots log).2 = log ++ jobs
      ∧ map job_sim jobs
        = flat_map (λ p, replicate 3
                           (mkAer "density_matrix"
                              (DD.leakage_noise_model (Some p) (Some 0.01%Q))))
            noise_vals
      ∧ Forall (λ j, job_shots j = default 2000%Z shots
                     ∧ [("I", 1 - 0.01); ("Z", 0.01)]%Q
                         ∈ channels_on (noise_model (job_sim j)) "h") jobs.
Proof.
  intros backend noise_vals shots log. unfold DD.run_benchmarks. cbv zeta.
  match goal with
  | |- context [for_M _ ?body _ _] =>
      destruct (for_M_log body
                  (λ p js, map job_sim js = replicate 3 (sweep_simulator p)
                           ∧ Forall (λ j, job_shots j = default 2000%Z shots) js)
                  noise_vals ([], [], []) log) as (jss & Hlog & Hall)
  end.
  { intros p acc log'. apply run_benchmarks_step. }
  apply sweep_jobs in Hall as [Hsims Hshots].
  exists (concat jss). split; [exact Hlog|]. split; [exact Hsims|].
  set (jobs := concat jss) in *.
  apply Forall_forall. intros j Hj. split.
  - by apply (proj1 (Forall_forall _ _) Hshots).
  - assert (Hin : job_sim j ∈ map job_sim jobs) by (apply list_elem_of_fmap; eauto).
    rewrite Hsims in Hin. apply list_elem_of_In, in_flat_map in Hin as (p & _ & Hp).
    apply list_elem_of_In, elem_of_replicate in Hp as [-> _].
    apply sweep_simulator_leak.
Qed.

(** ** The postselection analyzer *)

Lemma sum_app l1 l2 : sum (l1 ++ l2) = (sum l1 + sum l2)%Z.
Proof. unfold sum. induction l1 as [|a l1 IH]; cbn; [done|]. rewrite IH. lia. Qed.

Lemma sum_Permutation l1 l2 : l1 ≡ₚ l2 → sum l1 = sum l2.
Proof. unfold sum. induction 1; cbn; lia. Qed.

Lemma sum_nonneg l : Forall (λ n, 0 ≤ n)%Z l → (0 ≤ sum l)%Z.
Proof. unfold sum. induction 1; cbn; lia. Qed.

Lemma values_nonneg (counts : gmap string Z) :
  map_Forall (λ _ n, 0 ≤ n)%Z counts → Forall (λ n, 0 ≤ n)%Z (values counts).
Proof.
  intros Hall. apply map_Forall_to_list in Hall.
  unfold values. apply Forall_fmap.
  eapply Forall_impl; [exact Hall|]. by intros [k n].
Qed.

(** The total is the count of one key plus the total of the others. *)
Lemma sum_values_delete (counts : gmap string Z) key n :
  counts !! key = Some n →
  sum (values counts) = (n + sum (values (delete key counts)))%Z.
Proof.
  intros Hkey. unfold values.
  rewrite <- (sum_Permutation _ _ (fmap_Permutation snd _ _ (map_to_list_delete _ _ _ Hkey))).
  reflexivity.
Qed.

(** With nonnegative counts the count of any one key is between zero and
    the total. *)
Lemma get_le_total (counts : gmap string Z) key :
  map_Forall (λ _ n, 0 ≤ n)%Z counts →
  (0 ≤ get counts key 0 ≤ sum (values counts))%Z.
Proof.
  intros Hall. unfold get.
  pose proof (sum_nonneg _ (values_nonneg _ Hall)) as Htotal.
  destruct (counts !! key) as [n|] eqn:Hkey; cbn [default from_option id]; [|lia].
  rewrite (sum_values_delete _ _ _ Hkey).
  pose proof (Hall _ _ Hkey) as Hn. cbn in Hn.
  assert (0 ≤ sum (values (delete key counts)))%Z; [|lia].
  apply sum_nonneg, values_nonneg.
  intros k m Hk. apply lookup_delete_Some in Hk as [_ Hk]. exact (Hall _ _ Hk).
Qed.

Lemma ratio_bounds (valid total : Z) :
  (0 ≤ valid ≤ total)%Z → (0 < total)%Z →
  (0 <= inject_Z valid / inject_Z total)%Q ∧ (inject_Z valid / inject_Z total <= 1)%Q.
Proof.
  intros Hvalid Htotal. destruct total as [|t|t]; try lia.
  unfold Qle, Qdiv, Qmult, Qinv, inject_Z. cbn. lia.
Qed.

(** The guarded analyzers agree; the unguarded one agrees with them on
    every table with a nonzero total. *)
Lemma guarded_rates_agree (counts : gmap string Z) :
  HW8.postselection_rate counts = DD.postselection_rate counts
  ∧ V2.postselection_rate counts = DD.postselection_rate counts.
Proof. split; reflexivity. Qed.

Lemma guarded_rate_bounds (counts : gmap string Z) :
  map_Forall (λ _ n, 0 ≤ n)%Z counts →
  (0 <= DD.postselection_rate counts)%Q ∧ (DD.postselection_rate counts <= 1)%Q.
Proof.
  intros Hall. unfold DD.postselection_rate. cbv zeta.
  destruct (decide (sum (values counts) > 0)%Z) as [Hpos|Hzero].
  - apply ratio_bounds; [by apply get_le_total | lia].
  - split; discriminate.
Qed.

Lemma Sim6_rate_raises (counts : gmap string Z) :
  Sim6.postselection_rate counts = Raises ZeroDivisionError ↔ sum (values counts) = 0%Z.
Proof.
  unfold Sim6.postselection_rate. cbv zeta.
  destruct (decide (sum (values counts) = 0%Z)); split; done.
Qed.

Lemma Sim6_rate_returns (counts : gmap string Z) :
  sum (values counts) ≠ 0%Z →
  Sim6.postselection_rate counts
  = Returns (inject_Z (get counts "00" 0) / inject_Z (sum (values counts)))%Q.
Proof.
  intros Hne. unfold Sim6.postselection_rate. cbv zeta.
  destruct (decide (sum (values counts) = 0%Z)); done.
Qed.

(** C4: on the empty outcome table (total shot count 0) the analyzer of
    the 6-qubit simulation module raises [ZeroDivisionError], while the
    analyzers of the other three modules return 0. *)
Theorem C4_rate_of_empty_table :
  Sim6.postselection_rate ∅ = Raises ZeroDivisionError
  ∧ DD.postselection_rate ∅ = 0%Q
  ∧ HW8.postselection_rate ∅ = 0%Q
  ∧ V2.postselection_rate ∅ = 0%Q.
Proof. repeat split. Qed.

(** C8: on every outcome table with nonnegative counts the postselection
    rate lies between 0 and 1: the guarded analyzers always return such a
    rate, and the analyzer of the 6-qubit simulation module returns one
    whenever the table holds at least one shot. *)
Theorem C8_rate_bounds :
  ∀ counts : gmap string Z,
    map_Forall (λ _ n, 0 ≤ n)%Z counts →
    ((0 <= DD.postselection_rate counts)%Q ∧ (DD.postselection_rate counts <= 1)%Q)
    ∧ ((0 <= HW8.postselection_rate counts)%Q ∧ (HW8.postselection_rate counts <= 1)%Q)
    ∧ ((0 <= V2.postselection_rate counts)%Q ∧ (V2.postselection_rate counts <= 1)%Q)
    ∧ ((0 < sum (values counts))%Z →
       ∃ r, Sim6.postselection_rate counts = Returns r ∧ (0 <= r)%Q ∧ (r <= 1)%Q).
Proof.
  intros counts Hall.
  destruct (guarded_rates_agree counts) as [-> ->].
  pose proof (guarded_rate_bounds counts Hall) as Hdd.
  repeat (split; [exact Hdd|]).
  intros Hpos. eexists. split.
  - apply Sim6_rate_returns. lia.
  - apply ratio_bounds; [by apply get_le_total | lia].
Qed.

Lemma C8_rate_bounds_witness :
  let counts : gmap string Z := {[ "00" := 1500%Z; "10" := 500%Z ]} in
  map_Forall (λ _ n, 0 ≤ n)%Z counts
  ∧ ((0 <= DD.postselection_rate counts)%Q ∧ (DD.postselection_rate counts <= 1)%Q)
  ∧ ((0 <= HW8.postselection_rate counts)%Q ∧ (HW8.postselection_rate counts <= 1)%Q)
  ∧ ((0 <= V2.postselection_rate counts)%Q ∧ (V2.postselection_rate counts <= 1)%Q)
  ∧ ((0 < sum (values counts))%Z →
     ∃ r, Sim6.postselection_rate counts = Returns r ∧ (0 <= r)%Q ∧ (r <= 1)%Q).
Proof.
  intros counts.
  assert (Hall : map_Forall (λ _ n, 0 ≤ n)%Z counts).
  { subst counts. intros key n.
    rewrite lookup_insert. case_decide.
    - intros [= <-]. lia.
    - rewrite lookup_singleton. case_decide; [|done]. intros [= <-]. lia. }
  split; [exact Hall|]. exact (C8_rate_bounds counts Hall).
Defined.

(** ** Algebra of amplitudes and states *)

Section Amplitudes.
Implicit Types a b c : Amp.
Implicit Types s t : State.

Lemma amul_comm a b : amul a b = amul b a.
Proof. destruct a, b. unfold amul. cbn. f_equal; ring. Qed.

Lemma amul_assoc a b c : amul a (amul b c) = amul (amul a b) c.
Proof. destruct a, b, c. unfold amul. cbn. f_equal; ring. Qed.

Lemma amul_one_l a : amul aone a = a.
Proof. destruct a as [r i]. unfold amul. cbn. f_equal; destruct r, i; reflexivity. Qed.

Lemma amul_one_r a : amul a aone = a.
Proof. by rewrite amul_comm, amul_one_l. Qed.

Lemma amul_zero_r a : amul a azero = azero.
Proof. destruct a. unfold amul, azero. cbn. f_equal; ring. Qed.

Lemma amul_neg_l a b : amul (aneg a) b = aneg (amul a b).
Proof. destruct a, b. unfold amul, aneg. cbn. f_equal; ring. Qed.

Lemma aneg_involutive a : aneg (aneg a) = a.
Proof. destruct a. unfold aneg. cbn. f_equal; ring. Qed.

Lemma ai_squared : amul ai ai = aneg aone.
Proof. reflexivity. Qed.

Lemma neg_ai_squared : amul (aneg ai) (aneg ai) = aneg aone.
Proof. reflexivity. Qed.

Lemma scale_scale a b s : scale a (scale b s) = scale (amul a b) s.
Proof.
  unfold scale. induction s as [c|s0 IH0 s1 IH1]; cbn.
  - by rewrite amul_assoc.
  - by rewrite IH0, IH1.
Qed.

Lemma scale_one s : scale aone s = s.
Proof.
  unfold scale. induction s as [c|s0 IH0 s1 IH1]; cbn.
  - by rewrite amul_one_l.
  - by rewrite IH0, IH1.
Qed.

Lemma scale_comm a b s : scale a (scale b s) = scale b (scale a s).
Proof. by rewrite !scale_scale, amul_comm. Qed.

Lemma scale_Node a s0 s1 : scale a (Node s0 s1) = Node (scale a s0) (scale a s1).
Proof. reflexivity. Qed.

Lemma amplitude_scale a s bits :
  amplitude (scale a s) bits = amul a (amplitude s bits).
Proof.
  revert bits. induction s as [c|s0 IH0 s1 IH1]; intros bits; [reflexivity|].
  destruct bits as [|[] bits]; cbn; auto.
Qed.

(** States that differ in which basis states they populate are not
    multiples of each other. *)
Lemma not_same_ray s t bits :
  amplitude s bits = aone → amplitude t bits = azero → ¬ same_ray s t.
Proof.
  intros Hs Ht (a & b & Ha & _ & Heq).
  apply (f_equal (λ u, amplitude u bits)) in Heq.
  rewrite !amplitude_scale, Hs, Ht, amul_one_r, amul_zero_r in Heq. done.
Qed.

Lemma same_ray_refl s : same_ray s s.
Proof. exists aone, aone. by repeat split. Qed.

Lemma dd_phase_cases n : dd_phase n = aone ∨ dd_phase n = aneg aone.
Proof.
  induction n as [|n [IH|IH]]; cbn; rewrite ?IH; auto.
Qed.

Lemma dd_phase_even n : Nat.Even n → dd_phase n = aone.
Proof.
  intros [m ->]. induction m as [|m IH]; [reflexivity|].
  replace (2 * S m) with (S (S (2 * m))) by lia.
  cbn [dd_phase]. by rewrite aneg_involutive.
Qed.

Lemma dd_phase_nonzero n : dd_phase n ≠ azero.
Proof. destruct (dd_phase_cases n) as [-> | ->]; discriminate. Qed.
End Amplitudes.

(** ** Layers of one-qubit gates *)

Section Layers.
Implicit Types s t : State.
Implicit Types k : Kind1.

Lemma wf_scale w c s : wf w (scale c s) = wf w s.
Proof.
  revert w. induction s as [a|s0 IH0 s1 IH1]; intros [|w]; try reflexivity.
  cbn. by rewrite IH0, IH1.
Qed.

(** X and Y act linearly. *)
Lemma on_qubit_scale k c i s :
  k = Kx ∨ k = Ky →
  on_qubit (gate1 k) i (scale c s) = scale c (on_qubit (gate1 k) i s).
Proof.
  intros Hk. revert i.
  induction s as [a|s0 IH0 s1 IH1]; intros i; [reflexivity|].
  rewrite scale_Node. destruct i as [|i]; cbn [on_qubit].
  - destruct Hk as [-> | ->]; cbn [gate1]; rewrite scale_Node; [reflexivity|].
    f_equal; apply scale_comm.
  - by rewrite IH0, IH1, scale_Node.
Qed.

Lemma layer_scale k c off n s :
  k = Kx ∨ k = Ky →
  layer k off n (scale c s) = scale c (layer k off n s).
Proof.
  intros Hk. unfold layer. revert s.
  induction (seq off n) as [|i l IH]; intros s; [reflexivity|].
  cbn [fold_left]. by rewrite on_qubit_scale, IH.
Qed.

(** A layer below the root acts on both halves. *)
Lemma layer_shift k off n s0 s1 :
  layer k (S off) n (Node s0 s1) = Node (layer k off n s0) (layer k off n s1).
Proof.
  unfold layer. rewrite <- seq_shift. revert s0 s1.
  induction (seq off n) as [|i l IH]; intros s0 s1; [reflexivity|].
  cbn [map fold_left on_qubit]. apply IH.
Qed.

(** A layer that starts at the root applies the gate there and goes on
    below. *)
Lemma layer_here k n s0 s1 :
  layer k 0 (S n) (Node s0 s1)
  = Node (layer k 0 n (gate1 k s0 s1).1) (layer k 0 n (gate1 k s0 s1).2).
Proof.
  unfold layer at 1. cbn [seq fold_left on_qubit].
  destruct (gate1 k s0 s1) as [t0 t1]. apply layer_shift.
Qed.

Lemma dd_state_scale c off n s :
  dd_state off n (scale c s) = scale c (dd_state off n s).
Proof. unfold dd_state. rewrite !layer_scale; auto. Qed.

Lemma dd_state_shift off n s0 s1 :
  dd_state (S off) n (Node s0 s1) = Node (dd_state off n s0) (dd_state off n s1).
Proof. unfold dd_state. by rewrite !layer_shift. Qed.

(** On the qubit at the root, X followed by Y is -i Z. *)
Lemma dd_state_here n s0 s1 :
  dd_state 0 (S n) (Node s0 s1)
  = Node (scale (aneg ai) (dd_state 0 n s0)) (scale ai (dd_state 0 n s1)).
Proof.
  unfold dd_state. rewrite (layer_here Kx). cbn [gate1 fst snd].
  rewrite (layer_here Ky). cbn [gate1 fst snd].
  rewrite !layer_scale; auto.
Qed.

Lemma dd_state_none off s : dd_state off 0 s = s.
Proof. reflexivity. Qed.

(** Two fragments in a row multiply the state by (-1)^n. *)
Lemma dd_state_twice s :
  ∀ off n w, wf w s = true → (off + n ≤ w)%nat →
    dd_state off n (dd_state off n s) = scale (dd_phase n) s.
Proof.
  induction s as [a|s0 IH0 s1 IH1]; intros off n w Hwf Hle.
  - destruct w; [|discriminate].
    assert (n = 0) as -> by lia.
    rewrite !dd_state_none. cbn [dd_phase]. by rewrite scale_one.
  - destruct w as [|w]; [discriminate|].
    cbn [wf] in Hwf. apply andb_prop in Hwf as [Hwf0 Hwf1].
    destruct off as [|off].
    + destruct n as [|n].
      { rewrite !dd_state_none. cbn [dd_phase]. by rewrite scale_one. }
      rewrite dd_state_here, dd_state_here, !dd_state_scale.
      rewrite (IH0 0 n w), (IH1 0 n w) by (done || lia).
      rewrite !scale_scale, scale_Node. cbn [dd_phase].
      destruct (dd_phase_cases n) as [-> | ->]; reflexivity.
    + rewrite !dd_state_shift.
      rewrite (IH0 off n w), (IH1 off n w) by (done || lia).
      by rewrite scale_Node.
Qed.
End Layers.

(** ** Running gate layers *)

Lemma exec_app qc os1 os2 bs :
  exec qc (os1 ++ os2) bs = exec qc os2 (exec qc os1 bs).
Proof. unfold exec. apply fold_left_app. Qed.

(** Running depends on the circuit only through its registers. *)
Lemma step_ext qc1 qc2 o b :
  qregs qc1 = qregs qc2 → step qc1 o b = step qc2 o b.
Proof. intros Hregs. destruct o; unfold step, qindex; by rewrite ?Hregs. Qed.

Lemma exec_ext qc1 qc2 os bs :
  qregs qc1 = qregs qc2 → exec qc1 os bs = exec qc2 os bs.
Proof.
  intros Hregs. unfold exec. revert bs.
  induction os as [|o os IH]; intros bs; [reflexivity|].
  cbn [fold_left]. rewrite IH. f_equal.
  apply flat_map_ext. intros b. by apply step_ext.
Qed.

Lemma fold_left_seq_add {S} (f : nat → S → S) off start n s :
  fold_left (λ s i, f (off + i) s) (seq start n) s
  = fold_left (λ s i, f i s) (seq (off + start) n) s.
Proof.
  revert start s. induction n as [|n IH]; intros start s; [reflexivity|].
  cbn [seq fold_left]. rewrite IH. by rewrite Nat.add_succ_r.
Qed.

Lemma exec_gates qc k (data : QuantumRegister) l b :
  exec qc (map (λ i, SingleQubitGate k data.[i]) l) [b]
  = [mkBranch (clbits b)
       (fold_left (λ s i, on_qubit (gate1 k) (offset (qregs qc) data + i) s) l (state b))].
Proof.
  revert b. induction l as [|i l IH]; intros b; [by destruct b|].
  unfold exec in *. cbn [map fold_left flat_map step app].
  rewrite IH. reflexivity.
Qed.

Lemma exec_layer qc k data b :
  exec qc (map (SingleQubitGate k) (qubits data)) [b]
  = [mkBranch (clbits b) (layer k (offset (qregs qc) data) (qsize data) (state b))].
Proof.
  unfold qubits, layer. rewrite map_map.
  etransitivity; [apply (exec_gates qc k data (seq 0 (qsize data)) b)|].
  rewrite fold_left_seq_add. by rewrite Nat.add_0_r.
Qed.

Lemma exec_dd qc data b :
  exec qc (spec_dynamical_decoupling data) [b]
  = [mkBranch (clbits b) (dd_state (offset (qregs qc) data) (qsize data) (state b))].
Proof.
  unfold spec_dynamical_decoupling. rewrite !exec_app, exec_layer.
  unfold exec at 2. cbn [fold_left flat_map step app].
  by rewrite exec_layer.
Qed.

Lemma offset_bound regs data :
  data ∈ regs → (offset regs data + qsize data ≤ foldr (λ r n, qsize r + n) 0 regs)%nat.
Proof.
  induction regs as [|r regs IH]; intros Hin; [by apply elem_of_nil in Hin|].
  cbn [offset foldr]. case_decide as Heq; [subst; lia|].
  apply elem_of_cons in Hin as [->|Hin]; [done|]. specialize (IH Hin). lia.
Qed.

(** An even number of fragments: the state comes back, up to a sign that
    is +1 when the register has an even number of qubits. *)
Lemma exec_dd_even qc data k b :
  data ∈ qregs qc → wf (width qc) (state b) = true →
  ∃ c, (c = aone ∨ c = aneg aone)
       ∧ (Nat.Even (qsize data) → c = aone)
       ∧ exec qc (concat (replicate (2 * k) (spec_dynamical_decoupling data))) [b]
         = [mkBranch (clbits b) (scale c (state b))].
Proof.
  intros Hin. revert b. induction k as [|k IH]; intros b Hwf.
  - exists aone. split; [by left|]. split; [done|].
    cbn. rewrite scale_one. by destruct b.
  - replace (2 * S k) with (S (S (2 * k))) by lia.
    cbn [replicate concat]. rewrite !exec_app, !exec_dd. cbn [clbits state].
    rewrite (dd_state_twice _ _ _ (width qc)); [|done|by apply offset_bound].
    destruct (IH (mkBranch (clbits b) (scale (dd_phase (qsize data)) (state b))))
      as (c & Hc & Heven & Hexec).
    { cbn [state]. by rewrite wf_scale. }
    rewrite Hexec. cbn [clbits state]. rewrite scale_scale.
    exists (amul c (dd_phase (qsize data))). split; [|split; [|done]].
    + destruct Hc as [-> | ->], (dd_phase_cases (qsize data)) as [-> | ->]; auto.
    + intros He. by rewrite (Heven He), (dd_phase_even _ He).
Qed.

(** ** The dynamical-decoupling fragment *)

Lemma DD_dynamical_decoupling_ops qc data :
  ops (DD.dynamical_decoupling qc data) = ops qc ++ spec_dynamical_decoupling data
  ∧ qregs (DD.dynamical_decoupling qc data) = qregs qc.
Proof.
  unfold DD.dynamical_decoupling, spec_dynamical_decoupling. cbv zeta. split.
  - rewrite (for_ops1 (SingleQubitGate Ky)), ops_barrier, (for_ops1 (SingleQubitGate Kx)).
    by rewrite <- !app_assoc.
  - rewrite for_qregs by done. unfold barrier. cbn [append qregs].
    by rewrite for_qregs.
Qed.

Lemma iter_dd_ops m qc data :
  ops (Nat.iter m (λ qc, DD.dynamical_decoupling qc data) qc)
  = ops qc ++ concat (replicate m (spec_dynamical_decoupling data))
  ∧ qregs (Nat.iter m (λ qc, DD.dynamical_decoupling qc data) qc) = qregs qc.
Proof.
  induction m as [|m [IHops IHregs]]; [cbn; by rewrite app_nil_r|].
  rewrite Nat.iter_succ.
  destruct (DD_dynamical_decoupling_ops
    (Nat.iter m (λ qc, DD.dynamical_decoupling qc data) qc) data) as [Hops Hregs].
  rewrite Hops, Hregs.
  split; [|done]. rewrite IHops, <- app_assoc. f_equal.
  replace (S m) with (m + 1) by lia. rewrite replicate_add, concat_app. cbn.
  by rewrite app_nil_r.
Qed.

(** C7: the dynamical-decoupling fragment appends an X on every data
    qubit, a barrier, then a Y on every data qubit (in both simulation
    modules); and a circuit made of an even number of fragments, run
    without noise on any state of the circuit's qubits, returns that state
    up to a global sign, so the quantum state is unchanged.  The sign is
    +1 when the register has an even number of qubits, as the 8-qubit and
    6-qubit data registers have. *)
Theorem C7_dynamical_decoupling :
  ∀ (regs : list QuantumRegister) (cregs : list ClassicalRegister)
    (data : QuantumRegister) (k : nat) (b : Branch),
    data ∈ regs →
    wf (width (mkCircuit regs cregs [])) (state b) = true →
    let qc := Nat.iter (2 * k) (λ qc, DD.dynamical_decoupling qc data)
                (mkCircuit regs cregs []) in
    (∀ qc0, ops (DD.dynamical_decoupling qc0 data)
              = ops qc0 ++ map (SingleQubitGate Kx) (qubits data) ++ [Barrier]
                ++ map (SingleQubitGate Ky) (qubits data)
            ∧ Sim6.dynamical_decoupling qc0 data = DD.dynamical_decoupling qc0 data)
    ∧ ∃ c, (c = aone ∨ c = aneg aone)
           ∧ (Nat.Even (qsize data) → c = aone)
           ∧ exec qc (ops qc) [b] = [mkBranch (clbits b) (scale c (state b))]
           ∧ same_ray (scale c (state b)) (state b).
Proof.
  intros regs cregs data k b Hin Hwf qc. split.
  - intros qc0. split; [|reflexivity].
    apply DD_dynamical_decoupling_ops.
  - destruct (iter_dd_ops (2 * k) (mkCircuit regs cregs []) data) as [Hops Hregs].
    fold qc in Hops, Hregs. cbn [ops qregs app] in Hops, Hregs.
    destruct (exec_dd_even (mkCircuit regs cregs []) data k b Hin Hwf)
      as (c & Hc & Heven & Hexec).
    exists c. split; [done|]. split; [done|]. split.
    + rewrite Hops. rewrite (exec_ext qc (mkCircuit regs cregs [])) by done.
      exact Hexec.
    + exists aone, c. split; [done|]. split.
      * destruct Hc as [-> | ->]; discriminate.
      * by rewrite scale_one.
Qed.

Lemma C7_dynamical_decoupling_witness :
  let data := mkQReg 8 "data" in
  let regs := [data; mkQReg 4 "anc"] in
  let cregs := [mkCReg 2 "c"] in
  let b := initial (mkCircuit regs cregs []) in
  let qc := Nat.iter 2 (λ qc, DD.dynamical_decoupling qc data) (mkCircuit regs cregs []) in
  data ∈ regs
  ∧ wf 12 (state b) = true
  ∧ ∃ c, (c = aone ∨ c = aneg aone)
         ∧ (Nat.Even (qsize data) → c = aone)
         ∧ exec qc (ops qc) [b] = [mkBranch (clbits b) (scale c (state b))]
         ∧ same_ray (scale c (state b)) (state b).
Proof.
  intros data regs cregs b qc.
  assert (Hin : data ∈ regs) by (apply list_elem_of_here).
  assert (Hwf : wf (width (mkCircuit regs cregs [])) (state b) = true)
    by (vm_compute; reflexivity).
  split; [exact Hin|]. split; [exact Hwf|].
  exact (proj2 (C7_dynamical_decoupling regs cregs data 1 b Hin Hwf)).
Defined.

(** ** The two logical-zero constructions *)

(** The encoders of the sources are the two constructions of section 4.2
    at the size of their data register. *)
Lemma encoders_are_spec qc (data : QuantumRegister) :
  (qsize data = 8 →
     DD.encode_dfs_logical_zero qc data = with_ops qc (spec_doubled data)
     ∧ HW8.encode_dfs_logical_zero qc data = with_ops qc (spec_doubled data))
  ∧ (qsize data = 6 →
     Sim6.encode_logical_zero qc data = with_ops qc (spec_ghz_cascade data)
     ∧ V2.encode_logical_zero qc data = with_ops qc (spec_ghz_cascade data)).
Proof.
  destruct data as [n name]. cbn [qsize].
  split; intros ->; split;
    unfold with_ops, spec_doubled, spec_ghz_cascade, spec_cnot_cascade, qubits;
    unfold DD.encode_dfs_logical_zero, HW8.encode_dfs_logical_zero,
      Sim6.encode_logical_zero, V2.encode_logical_zero, qubits, h, cx, append;
    cbn; rewrite <- ?app_assoc; reflexivity.
Qed.

(** C1: on the registers of the 8-qubit module the doubled construction
    of the sources returns the all-zero state (it acts as the identity on
    it), whereas the GHZ cascade on the same registers populates both the
    all-zero and the all-one data state: the two states are different, and
    followed by the stabilizer measurements the GHZ state reports "00" with
    probability 1 and the doubled one with probability 1/2.  The same
    holds on the registers of the 6-qubit module, where the sources use
    the GHZ cascade. *)
Theorem C1_encodings_differ :
  (let '(qc, data, anc, c) := DD.prep_qubits in
   let doubled := DD.encode_dfs_logical_zero qc data in
   let ghz := with_ops qc (spec_ghz_cascade data) in
   map state (ideal_run doubled) = [scale (mkAmp 256 0) (ket0 12)]
   ∧ (∃ s, map state (ideal_run ghz) = [s]
        ∧ amplitude s (replicate 12 false) = aone
        ∧ amplitude s (replicate 8 true ++ replicate 4 false) = aone
        ∧ ¬ same_ray s (scale (mkAmp 256 0) (ket0 12)))
   ∧ (ideal_probability (DD.stabilizer_measurements ghz data anc c) "00" == 1)%Q
   ∧ (ideal_probability (DD.stabilizer_measurements doubled data anc c) "00" == 1 # 2)%Q)
  ∧
  (let '(qc, data, anc, c) := Sim6.prep_qubits in
   let ghz := Sim6.encode_logical_zero qc data in
   let doubled := with_ops qc (spec_doubled data) in
   map state (ideal_run doubled) = [scale (mkAmp 64 0) (ket0 10)]
   ∧ (∃ s, map state (ideal_run ghz) = [s]
        ∧ amplitude s (replicate 10 false) = aone
        ∧ amplitude s (replicate 6 true ++ replicate 4 false) = aone
        ∧ ¬ same_ray s (scale (mkAmp 64 0) (ket0 10)))
   ∧ (ideal_probability (Sim6.stab_measurements ghz data anc c) "00" == 1)%Q
   ∧ (ideal_probability (Sim6.stab_measurements doubled data anc c) "00" == 1 # 2)%Q).
Proof.
  split.
  - cbv beta iota zeta delta [DD.prep_qubits].
    split; [vm_compute; reflexivity|]. split; [|split; vm_compute; reflexivity].
    eexists. split; [vm_compute; reflexivity|].
    split; [vm_compute; reflexivity|]. split; [vm_compute; reflexivity|].
    apply (not_same_ray _ _ (replicate 8 true ++ replicate 4 false));
      vm_compute; reflexivity.
  - cbv beta iota zeta delta [Sim6.prep_qubits].
    split; [vm_compute; reflexivity|]. split; [|split; vm_compute; reflexivity].
    eexists. split; [vm_compute; reflexivity|].
    split; [vm_compute; reflexivity|]. split; [vm_compute; reflexivity|].
    apply (not_same_ray _ _ (replicate 6 true ++ replicate 4 false));
      vm_compute; reflexivity.
Qed.

(** ** Noise-free runs of the strategies *)

Lemma two_outcome_table (P : string → Z → Prop) :
  P "00" 1000%Z → P "10" 1000%Z →
  map_Forall P ({[ "00" := 1000%Z; "10" := 1000%Z ]} : gmap string Z).
Proof.
  intros H00 H10 key n. rewrite lookup_insert. case_decide.
  - intros [= <-]. by subst.
  - rewrite lookup_singleton. case_decide; [|done]. intros [= <-]. by subst.
Qed.

(** In the 6-qubit simulation module, whose encoder is the GHZ cascade,
    the mid-circuit and the deferred circuit report "00" with certainty. *)
Lemma noiseless_rate_6 (backend : Backend) (shots : option Z) (p_noise : option Q) :
  (∃ qc, map (job_circuit) (submitted (Sim6.simulation backend shots p_noise None)) = [qc]
     ∧ (ideal_probability qc "00" == 1)%Q)
  ∧ (∃ qc, circuits (Sim6.circuit_deferred_measurement backend shots p_noise) = [qc]
     ∧ (ideal_probability qc "00" == 1)%Q).
Proof.
  split; (eexists; split; [lazy; reflexivity|]); vm_compute; reflexivity.
Qed.

(** C2: without noise, the mid-circuit and the deferred circuit of the
    8-qubit module report "00" with probability 1/2 and "10" with
    probability 1/2, not "00" with certainty: a table with 1000 shots on
    each of the two outcomes is a possible result of 2000 noise-free
    trials, and its postselection rate is 1/2. *)
Theorem C2_noiseless_rate_8 :
  ∀ (backend : Backend) (shots : option Z) (p p_leak : option Q),
    let table : gmap string Z := {[ "00" := 1000%Z; "10" := 1000%Z ]} in
    (∃ qc, circuits (DD.circuit_mid_circuit backend shots p p_leak) = [qc]
       ∧ (ideal_probability qc "00" == 1 # 2)%Q
       ∧ (ideal_probability qc "10" == 1 # 2)%Q
       ∧ ideal_table qc 2000 table)
    ∧ (∃ qc, circuits (DD.circuit_deferred backend shots p p_leak) = [qc]
       ∧ (ideal_probability qc "00" == 1 # 2)%Q
       ∧ (ideal_probability qc "10" == 1 # 2)%Q
       ∧ ideal_table qc 2000 table)
    ∧ (DD.postselection_rate table == 1 # 2)%Q
    ∧ ¬ (DD.postselection_rate table == 1)%Q.
Proof.
  intros backend shots p p_leak table. subst table.
  split; [|split; [|split; [vm_compute; reflexivity | vm_compute; discriminate]]].
  - eexists. split; [lazy; reflexivity|].
    split; [vm_compute; reflexivity|]. split; [vm_compute; reflexivity|].
    split; [vm_compute; reflexivity|].
    apply two_outcome_table; (split; [lia|intros _; vm_compute; reflexivity]).
  - eexists. split; [lazy; reflexivity|].
    split; [vm_compute; reflexivity|]. split; [vm_compute; reflexivity|].
    split; [vm_compute; reflexivity|].
    apply two_outcome_table; (split; [lia|intros _; vm_compute; reflexivity]).
Qed.

(** * Further properties of the sources *)

(** ** Builders only append *)

Lemma with_ops_nil qc : with_ops qc [] = qc.
Proof. destruct qc. unfold with_ops. cbn. by rewrite app_nil_r. Qed.

Lemma with_ops_app qc os1 os2 :
  with_ops (with_ops qc os1) os2 = with_ops qc (os1 ++ os2).
Proof. unfold with_ops. cbn. by rewrite app_assoc. Qed.

Lemma append_with_ops qc os o :
  append (with_ops qc os) o = with_ops qc (os ++ [o]).
Proof. unfold append, with_ops. cbn. by rewrite app_assoc. Qed.

Lemma for_with_ops {A} (F : A → list Operation)
    (body : A → QuantumCircuit → QuantumCircuit) l qc os :
  (∀ a os, body a (with_ops qc os) = with_ops qc (os ++ F a)) →
  for_ l body (with_ops qc os) = with_ops qc (os ++ flat_map F l).
Proof.
  intros Hbody. revert os.
  induction l as [|a l IH]; intros os.
  - cbn. by rewrite app_nil_r.
  - rewrite for_cons, Hbody, IH. cbn [flat_map]. by rewrite app_assoc.
Qed.

Lemma flat_map_singleton {A B} (f : A → B) l : flat_map (λ a, [f a]) l = map f l.
Proof. induction l as [|a l IH]; [done|]. cbn. by rewrite IH. Qed.

Lemma for_gate_with_ops {A} (f : A → Operation) l qc os :
  for_ l (λ a qc, append qc (f a)) (with_ops qc os) = with_ops qc (os ++ map f l).
Proof.
  rewrite (for_with_ops (λ a, [f a])); [by rewrite flat_map_singleton|].
  intros a os'. apply append_with_ops.
Qed.

Lemma x_loop_frame l (data : QuantumRegister) (a : Qubit) qc os :
  for_ l (λ i qc,
      append (append (append qc (SingleQubitGate Kh data.[i]))
                (ControlledGate data.[i] a))
        (SingleQubitGate Kh data.[i])) (with_ops qc os)
  = with_ops qc (os ++ flat_map (λ i, [SingleQubitGate Kh data.[i];
                                      ControlledGate data.[i] a;
                                      SingleQubitGate Kh data.[i]]) l).
Proof.
  apply (for_with_ops (λ i, [SingleQubitGate Kh data.[i];
                             ControlledGate data.[i] a;
                             SingleQubitGate Kh data.[i]])).
  intros i os'. by rewrite !append_with_ops, <- !app_assoc.
Qed.

Lemma deferred_loop_frame l (data : QuantumRegister) (a0 a1 : Qubit) qc os :
  for_ l (λ i qc,
      append (append (append (append qc (ControlledGate data.[i] a0))
                        (SingleQubitGate Kh data.[i]))
                (ControlledGate data.[i] a1))
        (SingleQubitGate Kh data.[i])) (with_ops qc os)
  = with_ops qc (os ++ flat_map (λ i, [ControlledGate data.[i] a0;
                                      SingleQubitGate Kh data.[i];
                                      ControlledGate data.[i] a1;
                                      SingleQubitGate Kh data.[i]]) l).
Proof.
  apply (for_with_ops (λ i, [ControlledGate data.[i] a0;
                             SingleQubitGate Kh data.[i];
                             ControlledGate data.[i] a1;
                             SingleQubitGate Kh data.[i]])).
  intros i os'. by rewrite !append_with_ops, <- !app_assoc.
Qed.

(** Turn a builder applied to [with_ops qc os] into [with_ops qc (os ++ _)]. *)
Ltac frame :=
  cbv beta zeta;
  unfold h, x, y, z, cx, measure, reset, barrier, range, range2, reset_register;
  repeat first
    [ rewrite append_with_ops
    | rewrite for_gate_with_ops
    | rewrite x_loop_frame
    | rewrite deferred_loop_frame ];
  rewrite <- ?app_assoc.

Lemma DD_stabilizer_frame qc os data anc c :
  DD.stabilizer_measurements (with_ops qc os) data anc c
  = with_ops qc (os ++ spec_stabilizer_measurement 8 data anc c).
Proof. unfold DD.stabilizer_measurements. by frame. Qed.

Lemma HW8_stabilizer_frame qc os data anc c :
  HW8.stabilizer_measurements (with_ops qc os) data anc c
  = with_ops qc (os ++ spec_stabilizer_measurement 8 data anc c).
Proof. unfold HW8.stabilizer_measurements. by frame. Qed.

Lemma V2_stabilizer_frame qc os data anc c :
  V2.stabilizer_measurements (with_ops qc os) data anc c
  = with_ops qc (os ++ spec_stabilizer_measurement 6 data anc c).
Proof. unfold V2.stabilizer_measurements. by frame. Qed.

Lemma Sim6_s1_frame qc os (q : QuantumRegister) a cbit :
  Sim6.s1_meas (with_ops qc os) q a cbit
  = with_ops qc (os ++ map (λ i, ControlledGate q.[i] a) (seq 0 6) ++ [Measure a cbit]).
Proof. unfold Sim6.s1_meas. by frame. Qed.

Lemma Sim6_s2_frame qc os (q : QuantumRegister) a cbit :
  Sim6.s2_meas (with_ops qc os) q a cbit
  = with_ops qc (os ++ flat_map (λ i, [SingleQubitGate Kh q.[i];
                                      ControlledGate q.[i] a;
                                      SingleQubitGate Kh q.[i]]) (seq 0 6)
                   ++ [Measure a cbit]).
Proof. unfold Sim6.s2_meas. by frame. Qed.

Lemma Sim6_stabilizer_frame qc os data anc c :
  Sim6.stab_measurements (with_ops qc os) data anc c
  = with_ops qc (os ++ spec_stabilizer_measurement 6 data anc c).
Proof.
  unfold Sim6.stab_measurements. cbv zeta.
  rewrite Sim6_s1_frame. unfold reset. rewrite append_with_ops, Sim6_s2_frame.
  rewrite append_with_ops, <- !app_assoc. reflexivity.
Qed.

Lemma dd_frame qc os data :
  DD.dynamical_decoupling (with_ops qc os) data
  = with_ops qc (os ++ spec_dynamical_decoupling data).
Proof. unfold DD.dynamical_decoupling. by frame. Qed.

Lemma leo_frame qc os data :
  DD.leakage_elimination_operation (with_ops qc os) data
  = with_ops qc (os ++ spec_leo data).
Proof. unfold DD.leakage_elimination_operation. by frame. Qed.

(** The encoders on a register of any size: the loops of the 8-qubit
    encoder always run over the indices 1 to 7. *)
Lemma DD_encode_frame qc os (data : QuantumRegister) :
  DD.encode_dfs_logical_zero (with_ops qc os) data
  = with_ops qc (os ++ map (λ i, ControlledGate data.[0] data.[i]) (seq 1 7)
                   ++ map (SingleQubitGate Kh) (qubits data)
                   ++ map (λ i, ControlledGate data.[0] data.[i]) (seq 1 7)
                   ++ map (SingleQubitGate Kh) (qubits data)).
Proof. unfold DD.encode_dfs_logical_zero. by frame. Qed.

Lemma Sim6_encode_frame qc os (data : QuantumRegister) :
  Sim6.encode_logical_zero (with_ops qc os) data
  = with_ops qc (os ++ SingleQubitGate Kh data.[0]
                   :: map (λ i, ControlledGate data.[0] data.[i]) (seq 1 5)).
Proof. unfold Sim6.encode_logical_zero. by frame. Qed.

Lemma V2_encode_frame qc os (data : QuantumRegister) :
  V2.encode_logical_zero (with_ops qc os) data
  = with_ops qc (os ++ SingleQubitGate Kh data.[0]
                   :: map (λ i, ControlledGate data.[0] data.[i]) (seq 1 5)).
Proof. unfold V2.encode_logical_zero. by frame. Qed.

(** The copies of a fragment in the other modules are the same function. *)
Lemma fragment_copies qc data :
  HW8.encode_dfs_logical_zero qc data = DD.encode_dfs_logical_zero qc data
  ∧ Sim6.dynamical_decoupling qc data = DD.dynamical_decoupling qc data
  ∧ HW8.leakage_elimination_operation qc data = DD.leakage_elimination_operation qc data
  ∧ V2.leakage_elimination_operation qc data = DD.leakage_elimination_operation qc data.
Proof. repeat split. Qed.

Lemma frame_appends f os :
  (∀ qc os0, f (with_ops qc os0) = with_ops qc (os0 ++ os)) → appends f os.
Proof.
  intros Hf qc. rewrite <- (with_ops_nil qc) at 1. by rewrite Hf.
Qed.

(** X1: every fragment builder of the four modules only appends: it keeps
    the registers and every instruction already in the circuit, in order,
    and the instructions it adds depend on its register arguments only,
    not on the circuit it is applied to. *)
Theorem builders_only_append :
  ∀ (data anc : QuantumRegister) (c : ClassicalRegister) (a : Qubit) (bit : Clbit),
    (∃ os, appends (λ qc, DD.encode_dfs_logical_zero qc data) os)
    ∧ (∃ os, appends (λ qc, DD.dynamical_decoupling qc data) os)
    ∧ (∃ os, appends (λ qc, DD.leakage_elimination_operation qc data) os)
    ∧ (∃ os, appends (λ qc, DD.stabilizer_measurements qc data anc c) os)
    ∧ (∃ os, appends (λ qc, HW8.encode_dfs_logical_zero qc data) os)
    ∧ (∃ os, appends (λ qc, HW8.leakage_elimination_operation qc data) os)
    ∧ (∃ os, appends (λ qc, HW8.stabilizer_measurements qc data anc c) os)
    ∧ (∃ os, appends (λ qc, V2.encode_logical_zero qc data) os)
    ∧ (∃ os, appends (λ qc, V2.leakage_elimination_operation qc data) os)
    ∧ (∃ os, appends (λ qc, V2.stabilizer_measurements qc data anc c) os)
    ∧ (∃ os, appends (λ qc, Sim6.encode_logical_zero qc data) os)
    ∧ (∃ os, appends (λ qc, Sim6.dynamical_decoupling qc data) os)
    ∧ (∃ os, appends (λ qc, Sim6.s1_meas qc data a bit) os)
    ∧ (∃ os, appends (λ qc, Sim6.s2_meas qc data a bit) os)
    ∧ (∃ os, appends (λ qc, Sim6.stab_measurements qc data anc c) os).
Proof.
  intros data anc c a bit.
  repeat match goal with |- _ ∧ _ => split end;
    eexists; apply frame_appends; intros qc os0.
  - apply DD_encode_frame.
  - apply dd_frame.
  - apply leo_frame.
  - apply DD_stabilizer_frame.
  - apply DD_encode_frame.
  - apply leo_frame.
  - apply HW8_stabilizer_frame.
  - apply V2_encode_frame.
  - apply leo_frame.
  - apply V2_stabilizer_frame.
  - apply Sim6_encode_frame.
  - apply dd_frame.
  - apply Sim6_s1_frame.
  - apply Sim6_s2_frame.
  - apply Sim6_stabilizer_frame.
Qed.

(** ** Indices stay in range *)

Lemma well_formed_with_ops qc os :
  well_formed (with_ops qc os) = well_formed qc && forallb (op_in_range qc) os.
Proof. unfold well_formed, with_ops. cbn [ops]. apply forallb_app. Qed.

Lemma qubit_ok qc (r : QuantumRegister) i :
  r ∈ qregs qc → (i < qsize r)%nat → qubit_in_range qc r.[i] = true.
Proof.
  intros Hin Hi. unfold qubit_in_range. cbn.
  rewrite bool_decide_eq_true_2 by done. by apply Nat.ltb_lt.
Qed.

Lemma gate_ok qc k (r : QuantumRegister) i :
  r ∈ qregs qc → (i < qsize r)%nat → op_in_range qc (SingleQubitGate k r.[i]) = true.
Proof. intros Hin Hi. unfold op_in_range. cbn [op_qubits forallb]. by rewrite qubit_ok. Qed.

Lemma reset_ok qc (r : QuantumRegister) i :
  r ∈ qregs qc → (i < qsize r)%nat → op_in_range qc (Reset r.[i]) = true.
Proof. intros Hin Hi. unfold op_in_range. cbn [op_qubits forallb]. by rewrite qubit_ok. Qed.

Lemma measure_ok qc (r : QuantumRegister) i b :
  r ∈ qregs qc → (i < qsize r)%nat → (b < num_clbits qc)%nat →
  op_in_range qc (Measure r.[i] b) = true.
Proof.
  intros Hin Hi Hb. unfold op_in_range. cbn [op_qubits forallb].
  rewrite qubit_ok by done. by apply Nat.ltb_lt.
Qed.

Lemma cx_ok qc (r1 r2 : QuantumRegister) i j :
  r1 ∈ qregs qc → (i < qsize r1)%nat → r2 ∈ qregs qc → (j < qsize r2)%nat →
  r1 ≠ r2 ∨ i ≠ j →
  op_in_range qc (ControlledGate r1.[i] r2.[j]) = true.
Proof.
  intros Hin1 Hi Hin2 Hj Hne. unfold op_in_range. cbn [op_qubits forallb].
  rewrite !qubit_ok by done. cbn [andb].
  rewrite bool_decide_eq_false_2; [done|].
  intros [= Hr Hidx]. destruct Hne; done.
Qed.

Lemma forallb_map_seq {B} (P : B → bool) (f : nat → B) start n :
  (∀ i, (start ≤ i < start + n)%nat → P (f i) = true) →
  forallb P (map f (seq start n)) = true.
Proof.
  intros Hf. apply forallb_forall. intros b Hb.
  apply in_map_iff in Hb as (i & <- & Hi). apply in_seq in Hi. by apply Hf.
Qed.

Lemma forallb_flat_map_seq {B} (P : B → bool) (F : nat → list B) start n :
  (∀ i, (start ≤ i < start + n)%nat → forallb P (F i) = true) →
  forallb P (flat_map F (seq start n)) = true.
Proof.
  intros HF. apply forallb_forall. intros b Hb.
  apply in_flat_map in Hb as (i & Hi & Hb). apply in_seq in Hi.
  specialize (HF i Hi). by apply (proj1 (forallb_forall _ _) HF).
Qed.

Lemma forallb_qubits (P : Operation → bool) k (r : QuantumRegister) :
  (∀ i, (i < qsize r)%nat → P (SingleQubitGate k r.[i]) = true) →
  forallb P (map (SingleQubitGate k) (qubits r)) = true.
Proof.
  intros Hk. unfold qubits. rewrite map_map.
  apply forallb_map_seq. intros i Hi. apply Hk. lia.
Qed.

Lemma clbit_index (c : ClassicalRegister) i : c.[i] = i.
Proof. reflexivity. Qed.

(** Check a closed-form instruction list piece by piece. *)
Ltac in_range :=
  rewrite ?clbit_index;
  repeat first
    [ rewrite forallb_app
    | match goal with |- (_ && _) = true => apply andb_true_intro; split end
    | apply forallb_qubits; intros ? ?
    | apply forallb_map_seq; intros ? ?
    | apply forallb_flat_map_seq; intros ? ?
    | progress cbn [forallb] ];
  try reflexivity;
  first [ apply gate_ok | apply reset_ok | apply measure_ok | apply cx_ok ];
  first [ assumption | lia | (left; assumption) | (right; lia) ].

Lemma stabilizer_in_range qc n (data anc : QuantumRegister) (c : ClassicalRegister) :
  data ∈ qregs qc → anc ∈ qregs qc → data ≠ anc →
  (n ≤ qsize data)%nat → (2 ≤ qsize anc)%nat → (2 ≤ num_clbits qc)%nat →
  forallb (op_in_range qc) (spec_stabilizer_measurement n data anc c) = true.
Proof.
  intros Hdata Hanc Hne Hn Ha Hc.
  unfold spec_stabilizer_measurement, spec_z_check, spec_x_check.
  in_range.
Qed.

(** X2: a fragment applied to a circuit whose instructions are in range
    yields a circuit whose instructions are in range, provided the data and
    ancilla registers are two different registers of the circuit, the
    ancilla register has at least two qubits, the circuit has at least two
    classical bits and, for the fragments with fixed loop bounds, the data
    register has at least 8 (8-qubit modules) or 6 (6-qubit modules)
    qubits. *)
Theorem fragments_stay_in_range :
  ∀ qc (data anc : QuantumRegister) (c : ClassicalRegister),
    well_formed qc = true →
    data ∈ qregs qc → anc ∈ qregs qc → data ≠ anc →
    (2 ≤ qsize anc)%nat → (2 ≤ num_clbits qc)%nat →
    well_formed (DD.dynamical_decoupling qc data) = true
    ∧ well_formed (DD.leakage_elimination_operation qc data) = true
    ∧ ((8 ≤ qsize data)%nat →
       well_formed (DD.encode_dfs_logical_zero qc data) = true
       ∧ well_formed (DD.stabilizer_measurements qc data anc c) = true)
    ∧ ((6 ≤ qsize data)%nat →
       well_formed (Sim6.encode_logical_zero qc data) = true
       ∧ well_formed (Sim6.stab_measurements qc data anc c) = true
       ∧ well_formed (V2.encode_logical_zero qc data) = true
       ∧ well_formed (V2.stabilizer_measurements qc data anc c) = true).
Proof.
  intros qc data anc c Hwf Hdata Hanc Hne Ha Hc.
  rewrite <- (with_ops_nil qc).
  rewrite dd_frame, leo_frame, DD_encode_frame, DD_stabilizer_frame,
    Sim6_encode_frame, Sim6_stabilizer_frame, V2_encode_frame, V2_stabilizer_frame.
  rewrite !well_formed_with_ops, Hwf. cbn [andb app].
  split; [|split; [|split]].
  - unfold spec_dynamical_decoupling. in_range.
  - unfold spec_leo. in_range.
  - intros Hn. split; [in_range | by apply stabilizer_in_range].
  - intros Hn. split; [in_range|]. split; [by apply stabilizer_in_range|].
    split; [in_range | by apply stabilizer_in_range].
Qed.

Lemma fragments_stay_in_range_witness :
  let data := mkQReg 8 "data" in
  let anc := mkQReg 4 "anc" in
  let c := mkCReg 2 "c" in
  let qc := mkCircuit [data; anc] [c] [] in
  well_formed qc = true
  ∧ well_formed (DD.dynamical_decoupling qc data) = true
  ∧ well_formed (DD.leakage_elimination_operation qc data) = true
  ∧ ((8 ≤ qsize data)%nat →
     well_formed (DD.encode_dfs_logical_zero qc data) = true
     ∧ well_formed (DD.stabilizer_measurements qc data anc c) = true)
  ∧ ((6 ≤ qsize data)%nat →
     well_formed (Sim6.encode_logical_zero qc data) = true
     ∧ well_formed (Sim6.stab_measurements qc data anc c) = true
     ∧ well_formed (V2.encode_logical_zero qc data) = true
     ∧ well_formed (V2.stabilizer_measurements qc data anc c) = true).
Proof.
  intros data anc c qc. split; [reflexivity|].
  apply (fragments_stay_in_range qc data anc c).
  - reflexivity.
  - apply list_elem_of_here.
  - apply list_elem_of_further, list_elem_of_here.
  - discriminate.
  - cbn. lia.
  - cbn. lia.
Defined.

(** ** The leakage-elimination fragment *)

Section Leo.
Implicit Types s : State.

Lemma sneg_sneg s : sneg (sneg s) = s.
Proof.
  unfold sneg. induction s as [a|s0 IH0 s1 IH1]; cbn.
  - by rewrite aneg_involutive.
  - by rewrite IH0, IH1.
Qed.

Lemma sneg_scale s : sneg s = scale (aneg aone) s.
Proof.
  unfold sneg, scale. induction s as [a|s0 IH0 s1 IH1]; cbn.
  - by rewrite amul_neg_l, amul_one_l.
  - by rewrite IH0, IH1.
Qed.

Lemma on_qubit_z_scale c i s :
  on_qubit (gate1 Kz) i (scale c s) = scale c (on_qubit (gate1 Kz) i s).
Proof.
  revert i. induction s as [a|s0 IH0 s1 IH1]; intros i; [reflexivity|].
  rewrite scale_Node. destruct i as [|i]; cbn [on_qubit].
  - cbn [gate1]. rewrite scale_Node, !sneg_scale. f_equal. apply scale_comm.
  - by rewrite IH0, IH1, scale_Node.
Qed.

Lemma layer_z_scale c off n s :
  layer Kz off n (scale c s) = scale c (layer Kz off n s).
Proof.
  unfold layer. revert s.
  induction (seq off n) as [|i l IH]; intros s; [reflexivity|].
  cbn [fold_left]. by rewrite on_qubit_z_scale, IH.
Qed.

Lemma layer_Leaf k off n a : layer k off n (Leaf a) = Leaf a.
Proof.
  unfold layer. induction (seq off n) as [|i l IH]; [reflexivity|].
  cbn [fold_left on_qubit]. exact IH.
Qed.

(** Z on every qubit, twice, is the identity on every state. *)
Lemma layer_z_twice s : ∀ off n, layer Kz off n (layer Kz off n s) = s.
Proof.
  induction s as [a|s0 IH0 s1 IH1]; intros off n.
  - by rewrite !layer_Leaf.
  - destruct off as [|off].
    + destruct n as [|n]; [reflexivity|].
      rewrite (layer_here Kz). cbn [gate1 fst snd].
      rewrite (layer_here Kz). cbn [gate1 fst snd].
      rewrite IH0. f_equal.
      rewrite !sneg_scale, !layer_z_scale, scale_scale, IH1.
      change (amul (aneg aone) (aneg aone)) with aone. apply scale_one.
    + rewrite !layer_shift. by rewrite IH0, IH1.
Qed.

Lemma leo_phase_cases n :
  leo_phase n = aone ∨ leo_phase n = aneg ai
  ∨ leo_phase n = aneg aone ∨ leo_phase n = ai.
Proof.
  induction n as [|n [IH|[IH|[IH|IH]]]]; cbn [leo_phase]; rewrite ?IH; auto.
Qed.

Lemma leo_phase_nonzero n : leo_phase n ≠ azero.
Proof. destruct (leo_phase_cases n) as [->|[->|[->| ->]]]; discriminate. Qed.

Lemma leo_phase_period n : leo_phase (4 + n) = leo_phase n.
Proof.
  cbn [leo_phase Nat.add].
  destruct (leo_phase_cases n) as [->|[->|[->| ->]]]; reflexivity.
Qed.

(** A dynamical-decoupling fragment followed by a leakage-elimination
    fragment multiplies the state by (-i)^n. *)
Lemma leo_dd_state s :
  ∀ off n w, wf w s = true → (off + n ≤ w)%nat →
    layer Kz off n (dd_state off n s) = scale (leo_phase n) s.
Proof.
  induction s as [a|s0 IH0 s1 IH1]; intros off n w Hwf Hle.
  - destruct w; [|discriminate].
    assert (n = 0) as -> by lia.
    rewrite dd_state_none, layer_Leaf. cbn [leo_phase]. by rewrite scale_one.
  - destruct w as [|w]; [discriminate|].
    cbn [wf] in Hwf. apply andb_prop in Hwf as [Hwf0 Hwf1].
    destruct off as [|off].
    + destruct n as [|n].
      { rewrite dd_state_none. cbn [leo_phase]. by rewrite scale_one. }
      rewrite dd_state_here, (layer_here Kz). cbn [gate1 fst snd].
      rewrite sneg_scale, scale_scale, !layer_z_scale.
      rewrite (IH0 0 n w), (IH1 0 n w) by (done || lia).
      rewrite !scale_scale, scale_Node. cbn [leo_phase].
      reflexivity.
    + rewrite dd_state_shift, layer_shift.
      rewrite (IH0 off n w), (IH1 off n w) by (done || lia).
      by rewrite scale_Node.
Qed.
End Leo.

Lemma exec_leo qc data b :
  exec qc (spec_leo data) [b]
  = [mkBranch (clbits b) (layer Kz (offset (qregs qc) data) (qsize data) (state b))].
Proof. apply exec_layer. Qed.

(** X3: the leakage-elimination fragment appends a Z on every qubit of the
    data register, and two fragments in a row, run without noise, return
    every state exactly as it was. *)
Theorem leo_twice_is_identity :
  ∀ (regs : list QuantumRegister) (cregs : list ClassicalRegister)
    (data : QuantumRegister) (b : Branch),
    let once := DD.leakage_elimination_operation (mkCircuit regs cregs []) data in
    let twice := DD.leakage_elimination_operation once data in
    ops once = map (SingleQubitGate Kz) (qubits data)
    ∧ ops twice = ops once ++ map (SingleQubitGate Kz) (qubits data)
    ∧ exec twice (ops twice) [b] = [b].
Proof.
  intros regs cregs data b once twice.
  assert (Honce : once = with_ops (mkCircuit regs cregs []) (spec_leo data)).
  { subst once. rewrite <- (with_ops_nil (mkCircuit regs cregs [])) at 1.
    by rewrite leo_frame. }
  assert (Htwice : twice = with_ops (mkCircuit regs cregs []) (spec_leo data ++ spec_leo data)).
  { subst twice. rewrite Honce. by rewrite leo_frame. }
  rewrite Htwice, Honce. cbn [with_ops ops app].
  split; [reflexivity|]. split; [reflexivity|].
  rewrite (exec_ext _ (mkCircuit regs cregs [])) by reflexivity.
  rewrite exec_app, !exec_leo. cbn [clbits state].
  rewrite layer_z_twice. by destruct b.
Qed.

(** X4: a dynamical-decoupling fragment followed by a leakage-elimination
    fragment, run without noise on any state of the circuit's qubits,
    returns that state multiplied by the global phase (-i)^n for an
    n-qubit data register: the quantum state is unchanged.  The phase is
    +1 for the 8-qubit register and -1 for the 6-qubit one. *)
Theorem dd_then_leo_is_a_phase :
  ∀ (regs : list QuantumRegister) (cregs : list ClassicalRegister)
    (data : QuantumRegister) (b : Branch),
    data ∈ regs →
    wf (width (mkCircuit regs cregs [])) (state b) = true →
    let qc := DD.leakage_elimination_operation
                (DD.dynamical_decoupling (mkCircuit regs cregs []) data) data in
    exec qc (ops qc) [b]
      = [mkBranch (clbits b) (scale (leo_phase (qsize data)) (state b))]
    ∧ same_ray (scale (leo_phase (qsize data)) (state b)) (state b)
    ∧ (qsize data = 8 → leo_phase (qsize data) = aone)
    ∧ (qsize data = 6 → leo_phase (qsize data) = aneg aone).
Proof.
  intros regs cregs data b Hin Hwf qc.
  assert (Hqc : qc = with_ops (mkCircuit regs cregs [])
                       (spec_dynamical_decoupling data ++ spec_leo data)).
  { subst qc. rewrite <- (with_ops_nil (mkCircuit regs cregs [])) at 1.
    by rewrite dd_frame, leo_frame. }
  split; [|split; [|split]].
  - rewrite Hqc. cbn [with_ops ops app].
    rewrite (exec_ext _ (mkCircuit regs cregs [])) by reflexivity.
    rewrite exec_app, exec_dd, exec_leo. cbn [clbits state].
    rewrite (leo_dd_state _ _ _ (width (mkCircuit regs cregs [])));
      [done|done|by apply offset_bound].
  - exists aone, (leo_phase (qsize data)). split; [done|].
    split; [apply leo_phase_nonzero|]. by rewrite scale_one.
  - by intros ->.
  - by intros ->.
Qed.

Lemma dd_then_leo_is_a_phase_witness :
  let data := mkQReg 8 "data" in
  let regs := [data; mkQReg 4 "anc"] in
  let cregs := [mkCReg 2 "c"] in
  let b := initial (mkCircuit regs cregs []) in
  let qc := DD.leakage_elimination_operation
              (DD.dynamical_decoupling (mkCircuit regs cregs []) data) data in
  data ∈ regs
  ∧ wf 12 (state b) = true
  ∧ exec qc (ops qc) [b]
    = [mkBranch (clbits b) (scale (leo_phase (qsize data)) (state b))]
  ∧ same_ray (scale (leo_phase (qsize data)) (state b)) (state b)
  ∧ (qsize data = 8 → leo_phase (qsize data) = aone)
  ∧ (qsize data = 6 → leo_phase (qsize data) = aneg aone).
Proof.
  intros data regs cregs b qc.
  assert (Hin : data ∈ regs) by (apply list_elem_of_here).
  assert (Hwf : wf (width (mkCircuit regs cregs [])) (state b) = true)
    by (vm_compute; reflexivity).
  split; [exact Hin|]. split; [exact Hwf|].
  exact (dd_then_leo_is_a_phase regs cregs data b Hin Hwf).
Defined.

(** ** The attached channels are probability distributions *)

Lemma total_probability_nil : total_probability [] = 0%Q.
Proof. reflexivity. Qed.

Lemma total_probability_cons t ch :
  total_probability (t :: ch) = (t.2 + total_probability ch)%Q.
Proof. reflexivity. Qed.

Lemma total_probability_app a b :
  (total_probability (a ++ b) == total_probability a + total_probability b)%Q.
Proof.
  induction a as [|t a IH]; cbn [app].
  - rewrite total_probability_nil. lra.
  - rewrite !total_probability_cons, IH. lra.
Qed.

Lemma total_probability_scaled (lbl : string) (q : Q) (b : Channel) :
  (total_probability (map (λ tb, (lbl +:+ tb.1, (q * tb.2)%Q)) b)
   == q * total_probability b)%Q.
Proof.
  induction b as [|t b IH]; cbn [map].
  - rewrite total_probability_nil. lra.
  - rewrite !total_probability_cons, IH. cbn [snd]. lra.
Qed.

(** Independent draws: the totals multiply. *)
Lemma total_probability_tensor a b :
  (total_probability (tensor a b) == total_probability a * total_probability b)%Q.
Proof.
  unfold tensor. induction a as [|t a IH]; cbn [flat_map].
  - rewrite total_probability_nil. lra.
  - rewrite total_probability_app, total_probability_scaled, IH.
    rewrite total_probability_cons. lra.
Qed.

Lemma tensor_nonneg a b :
  Forall (λ t, (0 <= t.2)%Q) a → Forall (λ t, (0 <= t.2)%Q) b →
  Forall (λ t, (0 <= t.2)%Q) (tensor a b).
Proof.
  intros Ha Hb. unfold tensor. induction Ha as [|t a Ht Ha IH]; cbn [flat_map].
  - constructor.
  - apply Forall_app. split; [|exact IH].
    apply Forall_fmap. eapply Forall_impl; [exact Hb|].
    intros tb Htb. cbn. by apply Qmult_le_0_compat.
Qed.

Lemma tensor_distribution a b :
  is_distribution a → is_distribution b → is_distribution (tensor a b).
Proof.
  intros [Ha Hta] [Hb Htb]. split; [by apply tensor_nonneg|].
  rewrite total_probability_tensor, Hta, Htb. lra.
Qed.

Lemma Qdiv_nonneg (p d : Q) : (0 <= p)%Q → (0 < d)%Q → (0 <= p / d)%Q.
Proof. intros Hp Hd. apply Qle_shift_div_l; [exact Hd|]. lra. Qed.

(** Close the two halves of [is_distribution] for an explicit channel. *)
Ltac distribution :=
  split;
  [ repeat (apply Forall_cons; split;
            [cbn [snd]; first [lra | apply Qdiv_nonneg; [lra | reflexivity]]|]);
    apply Forall_nil_2
  | rewrite !total_probability_cons, total_probability_nil; cbn [snd]; field ].

Lemma depolarizing_distribution p :
  (0 <= p)%Q → (p <= 1)%Q → is_distribution (spec_depolarizing p).
Proof. intros H0 H1. unfold spec_depolarizing. distribution. Qed.

Lemma leakage_distribution p_leak :
  (0 <= p_leak)%Q → (p_leak <= 1)%Q →
  is_distribution [("I", 1 - p_leak); ("Z", p_leak)]%Q.
Proof. intros H0 H1. distribution. Qed.

Lemma single_leak_distribution p :
  (0 <= p)%Q → (p <= 1)%Q →
  is_distribution [("X", p / 2); ("Z", p / 2); ("I", 1 - p)]%Q.
Proof. intros H0 H1. distribution. Qed.

Lemma two_leak_distribution p :
  (0 <= p)%Q → (p <= 1)%Q → is_distribution (spec_leakage2 p).
Proof. intros H0 H1. unfold spec_leakage2. distribution. Qed.

(** X5: for strengths between 0 and 1, every channel the noise models of
    the two simulation modules attach, to whatever operation kind, is a
    probability distribution: its terms are nonnegative and sum to 1.
    This includes the sixteen-term product channel on the controlled
    gate. *)
Theorem attached_channels_are_distributions :
  ∀ (p p_leak : Q) (name : string) (ch : Channel),
    (0 <= p)%Q → (p <= 1)%Q → (0 <= p_leak)%Q → (p_leak <= 1)%Q →
    ch ∈ channels_on (DD.leakage_noise_model (Some p) (Some p_leak)) name
    ∨ ch ∈ channels_on (Sim6.leakage_noise_model (Some p)) name →
    is_distribution ch.
Proof.
  intros p p_leak name ch Hp0 Hp1 Hl0 Hl1 Hin.
  destruct (decide (name = "h")) as [->|Hh].
  { rewrite DD_noise_h, Sim6_noise_h in Hin.
    destruct Hin as [Hin|Hin].
    - apply elem_of_cons in Hin as [->|Hin]; [by apply depolarizing_distribution|].
      apply list_elem_of_singleton in Hin as ->. by apply leakage_distribution.
    - apply list_elem_of_singleton in Hin as ->. by apply single_leak_distribution. }
  destruct (decide (name = "cx")) as [->|Hcx].
  { rewrite DD_noise_cx, Sim6_noise_cx in Hin.
    destruct Hin as [Hin|Hin]; apply list_elem_of_singleton in Hin as ->.
    - apply tensor_distribution; by apply depolarizing_distribution.
    - by apply two_leak_distribution. }
  rewrite DD_noise_other, Sim6_noise_other in Hin by done.
  destruct Hin as [Hin|Hin]; by apply elem_of_nil in Hin.
Qed.

Lemma attached_channels_are_distributions_witness :
  (0 <= 0.02)%Q ∧ (0.02 <= 1)%Q ∧ (0 <= 0.01)%Q ∧ (0.01 <= 1)%Q
  ∧ tensor (spec_depolarizing 0.02) (spec_depolarizing 0.02)
      ∈ channels_on (DD.leakage_noise_model (Some 0.02%Q) (Some 0.01%Q)) "cx"
  ∧ is_distribution (tensor (spec_depolarizing 0.02) (spec_depolarizing 0.02)).
Proof.
  assert (H0 : (0 <= 0.02)%Q) by (vm_compute; discriminate).
  assert (H1 : (0.02 <= 1)%Q) by (vm_compute; discriminate).
  assert (H2 : (0 <= 0.01)%Q) by (vm_compute; discriminate).
  assert (H3 : (0.01 <= 1)%Q) by (vm_compute; discriminate).
  assert (Hin : tensor (spec_depolarizing 0.02) (spec_depolarizing 0.02)
                  ∈ channels_on (DD.leakage_noise_model (Some 0.02%Q) (Some 0.01%Q)) "cx").
  { rewrite DD_noise_cx. apply list_elem_of_here. }
  repeat (split; [assumption|]).
  exact (attached_channels_are_distributions 0.02 0.01 "cx" _ H0 H1 H2 H3 (or_introl Hin)).
Defined.


(** ** More on the postselection analyzer *)

Lemma sum_zero_iff l :
  Forall (λ n, 0 ≤ n)%Z l → sum l = 0%Z ↔ Forall (λ n, n = 0%Z) l.
Proof.
  unfold sum. induction 1 as [|n l Hn Hl IH]; cbn [foldr].
  - split; [constructor | done].
  - pose proof (sum_nonneg l Hl) as Hsum. unfold sum in Hsum. split.
    + intros Hz. constructor; [lia|]. apply IH. lia.
    + intros Hall. apply Forall_cons in Hall as [-> Hall].
      apply IH in Hall. lia.
Qed.

(** The total splits into the count of one key and the total of the
    others, whether or not the key is present. *)
Lemma total_split (counts : gmap string Z) key :
  sum (values counts) = (get counts key 0 + sum (values (delete key counts)))%Z.
Proof.
  unfold get. destruct (counts !! key) as [n|] eqn:Hkey; cbn [default from_option id].
  - by apply sum_values_delete.
  - by rewrite delete_id.
Qed.

Lemma values_Forall (P : Z → Prop) (counts : gmap string Z) :
  Forall P (values counts) ↔ map_Forall (λ _, P) counts.
Proof.
  rewrite map_Forall_to_list. unfold values. rewrite Forall_fmap.
  split; intros Hall; (eapply Forall_impl; [exact Hall|]); by intros [k n].
Qed.

Lemma others_zero_iff (counts : gmap string Z) key :
  map_Forall (λ _ n, 0 ≤ n)%Z counts →
  sum (values (delete key counts)) = 0%Z
  ↔ ∀ k n, counts !! k = Some n → k ≠ key → n = 0%Z.
Proof.
  intros Hall.
  assert (Hdel : map_Forall (λ _ n, 0 ≤ n)%Z (delete key counts)).
  { intros k n Hk. apply lookup_delete_Some in Hk as [_ Hk]. exact (Hall _ _ Hk). }
  rewrite (sum_zero_iff _ (values_nonneg _ Hdel)), values_Forall. split.
  - intros Hz k n Hk Hne. apply (Hz k n). apply lookup_delete_Some. done.
  - intros Hz k n Hk. apply lookup_delete_Some in Hk as [Hne Hk]. by apply (Hz k n).
Qed.

Lemma ratio_one (valid total : Z) :
  (0 < total)%Z → (inject_Z valid / inject_Z total == 1)%Q ↔ valid = total.
Proof.
  intros Htotal. destruct total as [|t|t]; try lia.
  unfold Qeq, Qdiv, Qmult, Qinv, inject_Z. cbn. lia.
Qed.

Lemma ratio_zero (valid total : Z) :
  (0 < total)%Z → (inject_Z valid / inject_Z total == 0)%Q ↔ valid = 0%Z.
Proof.
  intros Htotal. destruct total as [|t|t]; try lia.
  unfold Qeq, Qdiv, Qmult, Qinv, inject_Z. cbn. lia.
Qed.

Lemma guarded_rate_positive_total (counts : gmap string Z) :
  (0 < sum (values counts))%Z →
  DD.postselection_rate counts
  = (inject_Z (get counts "00" 0) / inject_Z (sum (values counts)))%Q.
Proof.
  intros Hpos. unfold DD.postselection_rate. cbv zeta.
  destruct (decide (sum (values counts) > 0)%Z); [done|lia].
Qed.

(** Within 2^53 shots the exact quotient keeps its distance from 1 and
    from 0. *)
Lemma ratio_margins (valid total : Z) :
  (0 ≤ valid ≤ total)%Z → (0 < total)%Z → (total ≤ 9007199254740992)%Z →
  (valid ≠ total →
     (inject_Z valid / inject_Z total <= 9007199254740991 # 9007199254740992)%Q)
  ∧ (valid ≠ 0%Z →
     (1 # 9007199254740992 <= inject_Z valid / inject_Z total)%Q).
Proof.
  intros Hvalid Hpos Hmax. destruct total as [|t|t]; try lia.
  unfold Qle, Qdiv, Qmult, Qinv, inject_Z. cbn. split; intros Hne; lia.
Qed.

(** X6: on an outcome table with nonnegative counts, at least one shot and
    at most 2^53 shots, the rate is 1 exactly when every shot reported
    "00" (every other key has count 0), and it is 0 exactly when no shot
    reported "00".  In that range a rate other than 1 is at most
    1 - 2^-53 and a rate other than 0 is at least 2^-53, so rounding the
    quotient to a double leaves both cases as they are.  On such a table
    the analyzer of the 6-qubit simulation module returns the same rate as
    the guarded analyzers. *)
Theorem rate_extremes :
  ∀ counts : gmap string Z,
    map_Forall (λ _ n, 0 ≤ n)%Z counts →
    (0 < sum (values counts))%Z →
    (sum (values counts) ≤ 9007199254740992)%Z →
    ((DD.postselection_rate counts == 1)%Q
       ↔ ∀ key n, counts !! key = Some n → key ≠ "00" → n = 0%Z)
    ∧ (¬ (DD.postselection_rate counts == 1)%Q →
       (DD.postselection_rate counts <= 9007199254740991 # 9007199254740992)%Q)
    ∧ ((DD.postselection_rate counts == 0)%Q ↔ get counts "00" 0 = 0%Z)
    ∧ (¬ (DD.postselection_rate counts == 0)%Q →
       (1 # 9007199254740992 <= DD.postselection_rate counts)%Q)
    ∧ HW8.postselection_rate counts = DD.postselection_rate counts
    ∧ V2.postselection_rate counts = DD.postselection_rate counts
    ∧ Sim6.postselection_rate counts = Returns (DD.postselection_rate counts).
Proof.
  intros counts Hall Hpos Hmax.
  rewrite (guarded_rate_positive_total counts Hpos).
  destruct (ratio_margins _ _ (get_le_total counts "00" Hall) Hpos Hmax)
    as [Hbelow Habove].
  split; [|split; [|split; [|split; [|split; [|split]]]]].
  - rewrite (ratio_one _ _ Hpos), <- (others_zero_iff counts "00" Hall).
    rewrite (total_split counts "00") at 1. lia.
  - intros Hne. apply Hbelow. intros Heq. apply Hne. by apply ratio_one.
  - by apply ratio_zero.
  - intros Hne. apply Habove. intros Heq. apply Hne. by apply ratio_zero.
  - unfold HW8.postselection_rate. cbv zeta.
    destruct (decide (sum (values counts) > 0)%Z); [done|lia].
  - unfold V2.postselection_rate. cbv zeta.
    destruct (decide (sum (values counts) > 0)%Z); [done|lia].
  - apply Sim6_rate_returns. lia.
Qed.

Lemma rate_extremes_witness :
  let counts : gmap string Z := {[ "00" := 2000%Z; "10" := 0%Z ]} in
  map_Forall (λ _ n, 0 ≤ n)%Z counts
  ∧ (0 < sum (values counts))%Z
  ∧ (sum (values counts) ≤ 9007199254740992)%Z
  ∧ ((DD.postselection_rate counts == 1)%Q
       ↔ ∀ key n, counts !! key = Some n → key ≠ "00" → n = 0%Z)
  ∧ (¬ (DD.postselection_rate counts == 1)%Q →
     (DD.postselection_rate counts <= 9007199254740991 # 9007199254740992)%Q)
  ∧ ((DD.postselection_rate counts == 0)%Q ↔ get counts "00" 0 = 0%Z)
  ∧ (¬ (DD.postselection_rate counts == 0)%Q →
     (1 # 9007199254740992 <= DD.postselection_rate counts)%Q)
  ∧ HW8.postselection_rate counts = DD.postselection_rate counts
  ∧ V2.postselection_rate counts = DD.postselection_rate counts
  ∧ Sim6.postselection_rate counts = Returns (DD.postselection_rate counts).
Proof.
  intros counts.
  assert (Hall : map_Forall (λ _ n, 0 ≤ n)%Z counts).
  { subst counts. intros key n.
    rewrite lookup_insert. case_decide.
    - intros [= <-]. lia.
    - rewrite lookup_singleton. case_decide; [|done]. intros [= <-]. lia. }
  assert (Hpos : (0 < sum (values counts))%Z) by (vm_compute; reflexivity).
  assert (Hmax : (sum (values counts) ≤ 9007199254740992)%Z)
    by (vm_compute; discriminate).
  split; [exact Hall|]. split; [exact Hpos|]. split; [exact Hmax|].
  exact (rate_extremes counts Hall Hpos Hmax).
Defined.

(** X7: when the key "00" is missing from the outcome table, the guarded
    analyzers return a zero rate, and the analyzer of the 6-qubit
    simulation module returns a zero rate unless the total is 0, in which
    case it raises. *)
Theorem rate_without_accepted_key :
  ∀ counts : gmap string Z,
    counts !! "00" = None →
    (DD.postselection_rate counts == 0)%Q
    ∧ (HW8.postselection_rate counts == 0)%Q
    ∧ (V2.postselection_rate counts == 0)%Q
    ∧ match Sim6.postselection_rate counts with
      | Returns r => (r == 0)%Q ∧ sum (values counts) ≠ 0%Z
      | Raises e => e = ZeroDivisionError ∧ sum (values counts) = 0%Z
      end.
Proof.
  intros counts Hmiss.
  assert (Hget : get counts "00" 0 = 0%Z) by (unfold get; by rewrite Hmiss).
  assert (Hdd : (DD.postselection_rate counts == 0)%Q).
  { unfold DD.postselection_rate. cbv zeta. rewrite Hget.
    destruct (decide (sum (values counts) > 0)%Z); [|reflexivity].
    unfold Qdiv. cbn. apply Qmult_0_l. }
  destruct (guarded_rates_agree counts) as [-> ->].
  repeat (split; [exact Hdd|]).
  unfold Sim6.postselection_rate. cbv zeta. rewrite Hget.
  destruct (decide (sum (values counts) = 0%Z)); [done|].
  split; [|done]. unfold Qdiv. apply Qmult_0_l.
Qed.

Lemma rate_without_accepted_key_witness :
  let counts : gmap string Z := {[ "10" := 7%Z ]} in
  counts !! "00" = None
  ∧ (DD.postselection_rate counts == 0)%Q
  ∧ (HW8.postselection_rate counts == 0)%Q
  ∧ (V2.postselection_rate counts == 0)%Q
  ∧ match Sim6.postselection_rate counts with
    | Returns r => (r == 0)%Q ∧ sum (values counts) ≠ 0%Z
    | Raises e => e = ZeroDivisionError ∧ sum (values counts) = 0%Z
    end.
Proof.
  intros counts.
  assert (Hmiss : counts !! "00" = None) by reflexivity.
  split; [exact Hmiss|]. exact (rate_without_accepted_key counts Hmiss).
Defined.

(** ** Results of the 8-qubit benchmark driver *)

(** A property of the loop state that every iteration carries from [n]
    to [n + 1] holds at the length of the list after the loop. *)
Lemma for_M_inv {A S} (I : nat → S → Prop) (body : A → S → Sim S) l s log :
  I 0%nat s →
  (∀ n a s log, I n s → I (Datatypes.S n) (body a s log).1) →
  I (length l) (for_M l body s log).1.
Proof.
  intros Hinit Hstep.
  assert (Hgen : ∀ n s log, I n s → I (n + length l)%nat (for_M l body s log).1).
  { induction l as [|a l IH]; intros n s' log' Hn.
    - cbn. by rewrite Nat.add_0_r.
    - rewrite for_M_cons. cbn [length].
      replace (n + Datatypes.S (length l))%nat with (Datatypes.S n + length l)%nat by lia.
      apply IH. by apply Hstep. }
  exact (Hgen 0%nat s log Hinit).
Qed.

(** What one iteration of the 8-qubit sweep does to the three lists. *)
Lemma run_benchmarks_step_lists backend (shots : Z) (p : Q)
    (mid deferred control : list Q) log :
  ∃ c1 c2 c3,
    ((counts ← DD.circuit_mid_circuit backend (Some shots) (Some p) None;
      let mid := mid ++ [DD.postselection_rate counts] in
      counts ← DD.circuit_deferred backend (Some shots) (Some p) None;
      let deferred := deferred ++ [DD.postselection_rate counts] in
      counts ← DD.circuit_control backend (Some shots) (Some p) None;
      let control := control ++ [DD.postselection_rate counts] in
      mret (mid, deferred, control)) log).1
    = (mid ++ [DD.postselection_rate c1],
       deferred ++ [DD.postselection_rate c2],
       control ++ [DD.postselection_rate c3])
    ∧ (∃ k1 j1, c1 = backend k1 j1) ∧ (∃ k2 j2, c2 = backend k2 j2)
    ∧ (∃ k3 j3, c3 = backend k3 j3).
Proof.
  eexists _, _, _. split; [reflexivity|]. repeat split; eexists _, _; reflexivity.
Qed.

(** X8: the 8-qubit driver returns three lists with one rate per noise
    level of the sweep, and when the backend only answers with tables of
    nonnegative counts every one of these rates lies between 0 and 1. *)
Theorem run_benchmarks_results :
  ∀ (backend : Backend) (noise_vals : list Q) (shots : option Z) (log : list Job),
    (∀ k job, map_Forall (λ _ n, 0 ≤ n)%Z (backend k job)) →
    let '(mid, deferred, control) := (DD.run_benchmarks backend noise_vals shots log).1 in
    length mid = length noise_vals
    ∧ length deferred = length noise_vals
    ∧ length control = length noise_vals
    ∧ Forall (λ r, (0 <= r)%Q ∧ (r <= 1)%Q) (mid ++ deferred ++ control).
Proof.
  intros backend noise_vals shots log Hbackend.
  unfold DD.run_benchmarks. cbv zeta.
  match goal with
  | |- context [for_M _ ?body _ _] =>
      pose proof (for_M_inv
        (λ n '(mid, deferred, control),
           length mid = n ∧ length deferred = n ∧ length control = n
           ∧ Forall (λ r, (0 <= r)%Q ∧ (r <= 1)%Q) (mid ++ deferred ++ control))
        body noise_vals ([], [], []) log) as Hinv
  end.
  apply Hinv; clear Hinv.
  - repeat split. constructor.
  - intros n p [[mid deferred] control] log' (Hm & Hd & Hc & Hall).
    destruct (run_benchmarks_step_lists backend (default 2000%Z shots) p
                mid deferred control log')
      as (c1 & c2 & c3 & Hstep & (k1 & j1 & ->) & (k2 & j2 & ->) & (k3 & j3 & ->)).
    cbv beta iota. cbv zeta in Hstep. rewrite Hstep.
    rewrite !length_app. cbn [length].
    split; [lia|]. split; [lia|]. split; [lia|].
    apply Forall_app in Hall as [Hmid Hall]. apply Forall_app in Hall as [Hdef Hctl].
    repeat (apply Forall_app; split); try done;
      (apply Forall_cons; split; [|apply Forall_nil_2]);
      by apply guarded_rate_bounds.
Qed.

Lemma run_benchmarks_results_witness :
  let backend : Backend := λ _ _, {[ "00" := 1500%Z ]} in
  (∀ k job, map_Forall (λ _ n, 0 ≤ n)%Z (backend k job))
  ∧ let '(mid, deferred, control) :=
        (DD.run_benchmarks backend [0%Q; 0.01%Q] None []).1 in
    length mid = 2%nat
    ∧ length deferred = 2%nat
    ∧ length control = 2%nat
    ∧ Forall (λ r, (0 <= r)%Q ∧ (r <= 1)%Q) (mid ++ deferred ++ control).
Proof.
  intros backend.
  assert (Hbackend : ∀ k job, map_Forall (λ _ n, 0 ≤ n)%Z (backend k job)).
  { intros k job key n. subst backend. cbv beta.
    rewrite lookup_singleton. case_decide; [|done]. intros [= <-]. lia. }
  split; [exact Hbackend|].
  exact (run_benchmarks_results backend [0%Q; 0.01%Q] None [] Hbackend).
Defined.

(** ** The benchmark driver of the 6-qubit simulation module *)

Lemma for_ME_cons {A S} (body : A → S → SimE S) a l s log :
  for_ME (a :: l) body s log
  = match body a s log with
    | (Returns s', log') => for_ME l body s' log'
    | (Raises e, log') => (Raises e, log')
    end.
Proof. reflexivity. Qed.

(** A property that every returning iteration preserves holds of whatever
    the loop returns. *)
Lemma for_ME_inv {A S} (I : S → Prop) (body : A → S → SimE S) l :
  (∀ a s log s' log', I s → body a s log = (Returns s', log') → I s') →
  ∀ s log, I s →
    match (for_ME l body s log).1 with
    | Returns s' => I s'
    | Raises _ => True
    end.
Proof.
  intros Hstep. induction l as [|a l IH]; intros s log Hs; [exact Hs|].
  rewrite for_ME_cons.
  destruct (body a s log) as [[s'|e] log'] eqn:Hbody; [|exact Logic.I].
  apply IH. by apply (Hstep a s log s' log').
Qed.

(** When every iteration returns and carries [I] from [n] to [n + 1], the
    loop returns and [I] holds at the length of the list. *)
Lemma for_ME_returns {A S} (I : nat → S → list Job → Prop) (body : A → S → SimE S) l :
  (∀ n a s log, I n s log →
     ∃ s' log', body a s log = (Returns s', log') ∧ I (Datatypes.S n) s' log') →
  ∀ n s log, I n s log →
    ∃ s' log', for_ME l body s log = (Returns s', log') ∧ I (n + length l)%nat s' log'.
Proof.
  intros Hstep. induction l as [|a l IH]; intros n s log Hs.
  - exists s, log. split; [reflexivity|]. cbn. by rewrite Nat.add_0_r.
  - destruct (Hstep n a s log Hs) as (s1 & log1 & Hbody & Hs1).
    destruct (IH (Datatypes.S n) s1 log1 Hs1) as (s' & log' & Hloop & Hs').
    exists s', log'. split.
    + by rewrite for_ME_cons, Hbody.
    + cbn [length]. by replace (n + Datatypes.S (length l))%nat
        with (Datatypes.S n + length l)%nat by lia.
Qed.

(** One iteration of the 6-qubit sweep: three calls, the second and the
    third with the same job, and the analyzer after each of them. *)
Lemma Sim6_sweep_step backend (shots : Z) (p : Q) :
  ∃ j1 j2, ∀ (mid control deferred : list Q) log,
    ('(_, counts_mid) ← call (Sim6.simulation backend (Some shots) (Some p) (Some false));
     rate ← eval (Sim6.postselection_rate counts_mid);
     counts_control ← call (Sim6.circuit_control backend (Some shots) (Some p));
     rate0 ← eval (Sim6.postselection_rate counts_control);
     counts_deferred ← call (Sim6.circuit_deferred_measurement backend (Some shots) (Some p));
     rate1 ← eval (Sim6.postselection_rate counts_deferred);
     mret (mid ++ [rate], control ++ [rate0], deferred ++ [rate1])) log
    = match Sim6.postselection_rate (backend (length log) j1) with
      | Raises e => (Raises e, log ++ [j1])
      | Returns r1 =>
        match Sim6.postselection_rate (backend (Datatypes.S (length log)) j2) with
        | Raises e => (Raises e, log ++ [j1; j2])
        | Returns r2 =>
          match Sim6.postselection_rate
                  (backend (Datatypes.S (Datatypes.S (length log))) j2) with
          | Raises e => (Raises e, log ++ [j1; j2; j2])
          | Returns r3 =>
              (Returns (mid ++ [r1], control ++ [r2], deferred ++ [r3]),
               log ++ [j1; j2; j2])
          end
        end
      end.
Proof.
  eexists ?[j1], ?[j2]. intros mid control deferred log.
  cbv beta iota zeta delta
    [mbind SimE_bind call eval mret SimE_ret Sim_bind Sim_ret
     Sim6.simulation Sim6.circuit_control Sim6.circuit_deferred_measurement run
     default from_option id Sim6.prep_qubits].
  rewrite !length_app. cbn [length]. rewrite !Nat.add_1_r, <- !app_assoc. cbn [app].
  match goal with
  | |- ?lhs = _ =>
      match lhs with
      | context [backend (length log) ?j] => unify ?j1 j
      end;
      match lhs with
      | context [backend (Datatypes.S (length log)) ?j] => unify ?j2 j
      end
  end.
  destruct (Sim6.postselection_rate (backend (length log) _)) as [r1|e1];
    [|reflexivity].
  destruct (Sim6.postselection_rate (backend (Datatypes.S (length log)) _)) as [r2|e2];
    [|reflexivity].
  destruct (Sim6.postselection_rate _) as [r3|e3]; reflexivity.
Qed.

(** X9: when the backend answers the first call of the sweep with a table
    whose total is 0, the 6-qubit driver raises [ZeroDivisionError] after
    that one job, whatever the noise levels that follow; nothing more is
    submitted and no result is returned. *)
Theorem sweep_aborts_on_empty_table :
  ∀ (backend : Backend) (p : Q) (noise_vals : list Q) (shots : option Z) (log : list Job),
    (∀ job, sum (values (backend (length log) job)) = 0%Z) →
    ∃ job, Sim6.run_benchmarks backend (p :: noise_vals) shots log
           = (Raises ZeroDivisionError, log ++ [job]).
Proof.
  intros backend p noise_vals shots log Hempty.
  unfold Sim6.run_benchmarks. cbv zeta. rewrite for_ME_cons. cbv beta iota.
  destruct (Sim6_sweep_step backend (default 2000%Z shots) p) as (j1 & j2 & Hstep).
  rewrite Hstep. exists j1.
  by rewrite (proj2 (Sim6_rate_raises _) (Hempty j1)).
Qed.

Lemma sweep_aborts_on_empty_table_witness :
  let backend : Backend := λ _ _, ∅ in
  (∀ job, sum (values (backend (length (@nil Job)) job)) = 0%Z)
  ∧ ∃ job, Sim6.run_benchmarks backend [0.01%Q; 0.02%Q; 0.05%Q] None []
           = (Raises ZeroDivisionError, [] ++ [job]).
Proof.
  intros backend.
  assert (Hempty : ∀ job, sum (values (backend (length (@nil Job)) job)) = 0%Z)
    by (intros job; reflexivity).
  split; [exact Hempty|].
  exact (sweep_aborts_on_empty_table backend 0.01%Q [0.02%Q; 0.05%Q] None [] Hempty).
Defined.

(** X10: when every table the backend answers with has nonnegative counts
    and a positive total, the 6-qubit driver returns three lists with one
    rate per noise level, all between 0 and 1, after submitting three jobs
    per noise level. *)
Theorem sweep_returns_rates :
  ∀ (backend : Backend) (noise_vals : list Q) (shots : option Z) (log : list Job),
    (∀ k job, map_Forall (λ _ n, 0 ≤ n)%Z (backend k job)
              ∧ (0 < sum (values (backend k job)))%Z) →
    ∃ mid control deferred log',
      Sim6.run_benchmarks backend noise_vals shots log
        = (Returns (mid, control, deferred), log')
      ∧ length mid = length noise_vals
      ∧ length control = length noise_vals
      ∧ length deferred = length noise_vals
      ∧ Forall (λ r, (0 <= r)%Q ∧ (r <= 1)%Q) (mid ++ control ++ deferred)
      ∧ length log' = (length log + 3 * length noise_vals)%nat.
Proof.
  intros backend noise_vals shots log Hbackend.
  unfold Sim6.run_benchmarks. cbv zeta.
  match goal with
  | |- context [for_ME _ ?body _ _] =>
      destruct (for_ME_returns
        (λ n '(mid, control, deferred) log',
           length mid = n ∧ length control = n ∧ length deferred = n
           ∧ Forall (λ r, (0 <= r)%Q ∧ (r <= 1)%Q) (mid ++ control ++ deferred)
           ∧ length log' = (length log + 3 * n)%nat)
        body noise_vals) with (n := 0%nat) (s := ([] : list Q, [] : list Q, [] : list Q))
        (log := log) as ([[mid control] deferred] & log' & Hrun & Hinv)
  end.
  - intros n p [[mid control] deferred] log0 (Hm & Hc & Hd & Hall & Hlog).
    cbv beta iota.
    destruct (Sim6_sweep_step backend (default 2000%Z shots) p) as (j1 & j2 & Hstep).
    rewrite Hstep. clear Hstep.
    assert (Hrate : ∀ k job, ∃ r,
               Sim6.postselection_rate (backend k job) = Returns r
               ∧ (0 <= r)%Q ∧ (r <= 1)%Q).
    { intros k job. destruct (Hbackend k job) as [Hnn Hpos].
      eexists. split; [apply Sim6_rate_returns; lia|].
      apply ratio_bounds; [by apply get_le_total | done]. }
    destruct (Hrate (length log0) j1) as (r1 & -> & Hr1).
    destruct (Hrate (Datatypes.S (length log0)) j2) as (r2 & -> & Hr2).
    destruct (Hrate (Datatypes.S (Datatypes.S (length log0))) j2) as (r3 & -> & Hr3).
    eexists _, _. split; [reflexivity|]. cbv beta iota.
    rewrite !length_app. cbn [length].
    split; [lia|]. split; [lia|]. split; [lia|]. split; [|lia].
    apply Forall_app in Hall as [Hmid Hall]. apply Forall_app in Hall as [Hctl Hdef].
    repeat (apply Forall_app; split); try done;
      by (apply Forall_cons; split; [|apply Forall_nil_2]).
  - repeat split; [constructor|lia].
  - cbv beta iota in Hinv. destruct Hinv as (Hm & Hc & Hd & Hall & Hlog).
    exists mid, control, deferred, log'. cbn [Nat.add] in *. done.
Qed.

Lemma sweep_returns_rates_witness :
  let backend : Backend := λ _ _, {[ "00" := 5%Z ]} in
  (∀ k job, map_Forall (λ _ n, 0 ≤ n)%Z (backend k job)
            ∧ (0 < sum (values (backend k job)))%Z)
  ∧ ∃ mid control deferred log',
      Sim6.run_benchmarks backend [0.01%Q; 0.02%Q] None []
        = (Returns (mid, control, deferred), log')
      ∧ length mid = 2%nat
      ∧ length control = 2%nat
      ∧ length deferred = 2%nat
      ∧ Forall (λ r, (0 <= r)%Q ∧ (r <= 1)%Q) (mid ++ control ++ deferred)
      ∧ length log' = 6%nat.
Proof.
  intros backend.
  assert (Hbackend : ∀ k job, map_Forall (λ _ n, 0 ≤ n)%Z (backend k job)
                              ∧ (0 < sum (values (backend k job)))%Z).
  { intros k job. subst backend. cbv beta. split; [|reflexivity].
    intros key n. rewrite lookup_singleton. case_decide; [|done].
    intros [= <-]. lia. }
  split; [exact Hbackend|].
  exact (sweep_returns_rates backend [0.01%Q; 0.02%Q] None [] Hbackend).
Defined.

(** X11: with a backend whose answer depends on the job only, not on when
    it is called, the 6-qubit driver returns the same list for the control
    strategy as for the deferred strategy: the two strategies submit the
    same job at every noise level. *)
Theorem control_rates_equal_deferred_rates :
  ∀ (backend : Backend) (noise_vals : list Q) (shots : option Z) (log : list Job),
    (∀ k k' job, backend k job = backend k' job) →
    match (Sim6.run_benchmarks backend noise_vals shots log).1 with
    | Returns (_, control, deferred) => control = deferred
    | Raises _ => True
    end.
Proof.
  intros backend noise_vals shots log Hsame.
  unfold Sim6.run_benchmarks. cbv zeta.
  match goal with
  | |- context [for_ME _ ?body _ _] =>
      pose proof (for_ME_inv (λ '(_, control, deferred), control = deferred)
                    body noise_vals) as Hinv
  end.
  specialize (Hinv) with (s := ([] : list Q, [] : list Q, [] : list Q)) (log := log).
  match type of Hinv with
  | _ → _ → ?concl =>
      assert (Hres : concl); [apply Hinv; [|reflexivity]|]
  end.
  - clear Hinv. intros p [[mid control] deferred] log0 [[mid' control'] deferred'] log1.
    cbv beta iota. intros ->.
    destruct (Sim6_sweep_step backend (default 2000%Z shots) p) as (j1 & j2 & Hstep).
    rewrite Hstep. clear Hstep.
    rewrite (Hsame (Datatypes.S (Datatypes.S (length log0))) (Datatypes.S (length log0)) j2).
    destruct (Sim6.postselection_rate (backend (length log0) j1)); [|discriminate].
    destruct (Sim6.postselection_rate (backend (Datatypes.S (length log0)) j2));
      [|discriminate].
    by intros [= _ <- <- _].
  - destruct (for_ME _ _ _ _).1 as [[[mid control] deferred]|e]; done.
Qed.

Lemma control_rates_equal_deferred_rates_witness :
  let backend : Backend := λ _ job, {[ "00" := job_shots job ]} in
  (∀ k k' job, backend k job = backend k' job)
  ∧ match (Sim6.run_benchmarks backend [0.01%Q; 0.02%Q] (Some 100%Z) []).1 with
    | Returns (_, control, deferred) => control = deferred
    | Raises _ => True
    end.
Proof.
  intros backend.
  assert (Hsame : ∀ k k' job, backend k job = backend k' job) by reflexivity.
  split; [exact Hsame|].
  exact (control_rates_equal_deferred_rates backend [0.01%Q; 0.02%Q] (Some 100%Z) [] Hsame).
Defined.

(** ** The hardware drivers *)

Lemma hardware_results (device : Device) (rate : gmap string Z → Q)
    (sub : string → QuantumCircuit → Submission) (qc1 qc2 qc3 : QuantumCircuit) log :
  for_H [("mid-circuit", qc1); ("deferred", qc2); ("control", qc3)]
    (λ '(name, qc) (results : gmap string Q),
       counts ← submit device (sub name qc);
       mret (<[name := rate counts]> results)) ∅ log
  = (<["control" := rate (device (2 + length log)%nat (sub "control" qc3))]>
       (<["deferred" := rate (device (1 + length log)%nat (sub "deferred" qc2))]>
          (<["mid-circuit" := rate (device (length log) (sub "mid-circuit" qc1))]> ∅)),
     log ++ [sub "mid-circuit" qc1; sub "deferred" qc2; sub "control" qc3]).
Proof.
  cbv beta iota zeta delta [for_H mbind Hw_bind mret Hw_ret submit].
  rewrite !length_app. cbn [length]. rewrite <- !app_assoc. cbn [app].
  by rewrite !Nat.add_1_r.
Qed.

Lemma three_rates (r1 r2 r3 : Q) (P : Q → Prop) :
  P r1 → P r2 → P r3 →
  let results : gmap string Q :=
    <["control" := r3]> (<["deferred" := r2]> (<["mid-circuit" := r1]> ∅)) in
  dom results = ({["mid-circuit"; "deferred"; "control"]} : gset string)
  ∧ map_Forall (λ _, P) results.
Proof.
  intros H1 H2 H3 results. subst results. split.
  - rewrite !dom_insert_L, dom_empty_L. set_solver.
  - repeat (apply map_Forall_insert_2; [done|]). apply map_Forall_empty.
Qed.

(** X12: each hardware driver submits exactly three circuits, in the order
    mid-circuit, deferred, control and with the requested shot count, and
    returns exactly one rate per strategy name; when the device only
    answers with tables of nonnegative counts, every rate lies between 0
    and 1.  The driver with dynamical decoupling passes the strategy name
    along with each circuit. *)
Theorem hardware_drivers :
  ∀ (device : Device) (shots : option Z) (log : list Submission),
    (∀ k sub, map_Forall (λ _ n, 0 ≤ n)%Z (device k sub)) →
    let n := default 2000%Z shots in
    let ok (results : gmap string Q) :=
      dom results = ({["mid-circuit"; "deferred"; "control"]} : gset string)
      ∧ map_Forall (λ _ r, (0 <= r)%Q ∧ (r <= 1)%Q) results in
    (ok (HW8.run_benchmarks device shots log).1
     ∧ (HW8.run_benchmarks device shots log).2
       = log ++ [mkSub None HW8.circuit_mid_circuit n; mkSub None HW8.circuit_deferred n;
                 mkSub None HW8.circuit_control n])
    ∧ (ok (V2.run_hardware_benchmarks device shots log).1
       ∧ (V2.run_hardware_benchmarks device shots log).2
         = log ++ [mkSub None V2.circuit_mid_circuit n; mkSub None V2.circuit_deferred n;
                   mkSub None V2.circuit_control n])
    ∧ (ok (V2.run_hardware_benchmarks_2 device shots log).1
       ∧ (V2.run_hardware_benchmarks_2 device shots log).2
         = log ++ [mkSub (Some "mid-circuit") V2.circuit_mid_circuit n;
                   mkSub (Some "deferred") V2.circuit_deferred n;
                   mkSub (Some "control") V2.circuit_control n]).
Proof.
  intros device shots log Hdevice n ok. subst ok.
  unfold HW8.run_benchmarks, V2.run_hardware_benchmarks, V2.run_hardware_benchmarks_2,
    HW8.run_on_hardware, V2.run_on_hardware, V2.hardware_dd.
  cbv zeta. cbn [default from_option id]. fold n.
  rewrite (hardware_results device HW8.postselection_rate (λ _ qc, mkSub None qc n)).
  rewrite (hardware_results device V2.postselection_rate (λ _ qc, mkSub None qc n)).
  rewrite (hardware_results device V2.postselection_rate (λ name qc, mkSub (Some name) qc n)).
  cbn [fst snd].
  split; [|split]; (split; [|reflexivity]);
    apply (three_rates _ _ _ (λ r, (0 <= r)%Q ∧ (r <= 1)%Q));
    apply (guarded_rate_bounds _ (Hdevice _ _)).
Qed.

Lemma hardware_drivers_witness :
  let device : Device := λ _ _, {[ "00" := 1200%Z ]} in
  (∀ k sub, map_Forall (λ _ n, 0 ≤ n)%Z (device k sub))
  ∧ dom (HW8.run_benchmarks device None []).1
    = ({["mid-circuit"; "deferred"; "control"]} : gset string)
  ∧ map_Forall (λ _ r, (0 <= r)%Q ∧ (r <= 1)%Q) (HW8.run_benchmarks device None []).1.
Proof.
  intros device.
  assert (Hdevice : ∀ k sub, map_Forall (λ _ n, 0 ≤ n)%Z (device k sub)).
  { intros k sub key n. subst device. cbv beta.
    rewrite lookup_singleton. case_decide; [|done]. intros [= <-]. lia. }
  split; [exact Hdevice|].
  exact (proj1 (proj1 (hardware_drivers device None [] Hdevice))).
Defined.

(** ** Noise-free outcome distributions of the strategies *)

(** X13: without noise, the mid-circuit strategy and the deferred strategy
    of a module have the same outcome distribution over the four two-bit
    outcomes, in each of the four modules: measuring and resetting the
    ancillas early or measuring them at the end makes no difference to the
    ideal statistics.  With the doubled encoder (8-qubit modules) the
    common distribution is "00" and "10" with probability 1/2 each; with
    the GHZ encoder (6-qubit modules) it is "00" with probability 1. *)
Theorem noise_free_mid_equals_deferred :
  ∀ (backend : Backend) (shots : option Z) (p p_leak : option Q),
    let half := [("00", 1 # 2); ("01", 0); ("10", 1 # 2); ("11", 0)]%Q in
    let sure := [("00", 1); ("01", 0); ("10", 0); ("11", 0)]%Q in
    (∃ mid deferred,
       circuits (DD.circuit_mid_circuit backend shots p p_leak) = [mid]
       ∧ circuits (DD.circuit_deferred backend shots p p_leak) = [deferred]
       ∧ ideal_distribution mid = half ∧ ideal_distribution deferred = half)
    ∧ (ideal_distribution HW8.circuit_mid_circuit = half
       ∧ ideal_distribution HW8.circuit_deferred = half)
    ∧ (ideal_distribution V2.circuit_mid_circuit = sure
       ∧ ideal_distribution V2.circuit_deferred = sure)
    ∧ (∃ mid deferred,
         circuits (Sim6.simulation backend shots p None) = [mid]
         ∧ circuits (Sim6.circuit_deferred_measurement backend shots p) = [deferred]
         ∧ ideal_distribution mid = sure ∧ ideal_distribution deferred = sure).
Proof.
  intros backend shots p p_leak half sure. subst half sure.
  split; [|split; [|split]].
  - eexists _, _. split; [lazy; reflexivity|]. split; [lazy; reflexivity|].
    split; vm_compute; reflexivity.
  - split; vm_compute; reflexivity.
  - split; vm_compute; reflexivity.
  - eexists _, _. split; [lazy; reflexivity|]. split; [lazy; reflexivity|].
    split; vm_compute; reflexivity.
Qed.

(** X14: without noise, the control circuits of the 8-qubit modules report
    "00" with certainty, while the control circuit of the 6-qubit hardware
    module, which measures two qubits of the GHZ state, reports "00" and
    "11" with probability 1/2 each: its two bits always agree and its
    noise-free postselection rate is 1/2. *)
Theorem noise_free_control :
  ∀ (backend : Backend) (shots : option Z) (p p_leak : option Q),
    (∃ control,
       circuits (DD.circuit_control backend shots p p_leak) = [control]
       ∧ ideal_distribution control = [("00", 1); ("01", 0); ("10", 0); ("11", 0)]%Q)
    ∧ ideal_distribution HW8.circuit_control
      = [("00", 1); ("01", 0); ("10", 0); ("11", 0)]%Q
    ∧ ideal_distribution V2.circuit_control
      = [("00", 1 # 2); ("01", 0); ("10", 0); ("11", 1 # 2)]%Q.
Proof.
  intros backend shots p p_leak.
  split; [|split].
  - eexists. split; [lazy; reflexivity|]. vm_compute; reflexivity.
  - vm_compute; reflexivity.
  - vm_compute; reflexivity.
Qed.

(** ** Shape of the strategy circuits *)

(** X15: the circuit a simulation function submits does not depend on the
    shot count, on the noise strengths or on what the backend answers;
    only the noise model and the shot count of the job do. *)
Theorem circuits_do_not_depend_on_parameters :
  ∀ (backend backend' : Backend) (shots shots' : option Z)
    (p p' p_leak p_leak' : option Q) (do_reset : option bool),
    circuits (DD.circuit_mid_circuit backend shots p p_leak)
      = circuits (DD.circuit_mid_circuit backend' shots' p' p_leak')
    ∧ circuits (DD.circuit_deferred backend shots p p_leak)
      = circuits (DD.circuit_deferred backend' shots' p' p_leak')
    ∧ circuits (DD.circuit_control backend shots p p_leak)
      = circuits (DD.circuit_control backend' shots' p' p_leak')
    ∧ circuits (Sim6.simulation backend shots p do_reset)
      = circuits (Sim6.simulation backend' shots' p' do_reset)
    ∧ circuits (Sim6.circuit_control backend shots p)
      = circuits (Sim6.circuit_control backend' shots' p')
    ∧ circuits (Sim6.circuit_deferred_measurement backend shots p)
      = circuits (Sim6.circuit_deferred_measurement backend' shots' p')
    ∧ map job_shots (submitted (DD.circuit_mid_circuit backend shots p p_leak))
      = [default 2000%Z shots]
    ∧ map job_shots (submitted (Sim6.simulation backend shots p do_reset))
      = [default 500%Z shots]
    ∧ map (λ j, noise_model (job_sim j))
        (submitted (Sim6.simulation backend shots p do_reset))
      = [Sim6.leakage_noise_model (Some (default 0.02%Q p))].
Proof.
  intros. repeat split.
Qed.

(** X16: every strategy circuit is the concatenation of the fragments, in
    this order.  Simulation, 8 qubits: all three start with encode,
    dynamical decoupling, leakage elimination; mid-circuit goes on with a
    barrier, the stabilizer measurements and a second decoupling,
    elimination and barrier; deferred with a barrier and the deferred
    checks; control with one measurement.  Hardware circuits carry no
    decoupling fragment.  Simulation, 6 qubits: encode, decoupling,
    barrier, then the stabilizer measurements, decoupling and barrier
    (mid-circuit) or the deferred checks. *)
Theorem strategy_circuits_compose :
  ∀ (backend : Backend) (shots : option Z) (p p_leak : option Q),
    (let '(_, data, anc, c) := DD.prep_qubits in
     let prep := spec_doubled data ++ spec_dynamical_decoupling data ++ spec_leo data in
     map ops (circuits (DD.circuit_mid_circuit backend shots p p_leak))
       = [prep ++ [Barrier] ++ spec_stabilizer_measurement 8 data anc c
          ++ spec_dynamical_decoupling data ++ spec_leo data ++ [Barrier]]
     ∧ map ops (circuits (DD.circuit_deferred backend shots p p_leak))
       = [prep ++ [Barrier] ++ spec_deferred_checks 8 data anc c]
     ∧ map ops (circuits (DD.circuit_control backend shots p p_leak))
       = [prep ++ [Measure data.[0] c.[0]]])
    ∧ (let '(_, data, anc, c) := HW8.prep_qubits in
       ops HW8.circuit_mid_circuit
         = spec_doubled data ++ spec_leo data ++ [Barrier]
           ++ spec_stabilizer_measurement 8 data anc c ++ spec_leo data
       ∧ ops HW8.circuit_deferred = spec_doubled data ++ spec_deferred_checks 8 data anc c
       ∧ ops HW8.circuit_control
         = spec_doubled data ++ [Measure data.[0] c.[0]; Measure data.[1] c.[1]])
    ∧ (let '(_, data, anc, c) := V2.prep_qubits in
       ops V2.circuit_mid_circuit
         = spec_ghz_cascade data ++ spec_leo data ++ [Barrier]
           ++ spec_stabilizer_measurement 6 data anc c ++ spec_leo data
       ∧ ops V2.circuit_deferred = spec_ghz_cascade data ++ spec_deferred_checks 6 data anc c
       ∧ ops V2.circuit_control
         = spec_ghz_cascade data ++ [Measure data.[0] c.[0]; Measure data.[1] c.[1]])
    ∧ (let '(_, data, anc, c) := Sim6.prep_qubits in
       let prep := spec_ghz_cascade data ++ spec_dynamical_decoupling data ++ [Barrier] in
       map ops (circuits (Sim6.simulation backend shots p None))
         = [prep ++ spec_stabilizer_measurement 6 data anc c
            ++ spec_dynamical_decoupling data ++ [Barrier]]
       ∧ map ops (circuits (Sim6.circuit_deferred_measurement backend shots p))
         = [prep ++ spec_deferred_checks 6 data anc c]).
Proof.
  intros backend shots p p_leak.
  split; [|split; [|split]]; repeat split; lazy; reflexivity.
Qed.

(** X17: [simulation] returns the circuit it submitted.  Without
    [do_reset], and by default, that circuit ends after the second
    barrier; with [do_reset] it goes on with a reset of every data qubit
    and a second GHZ encoding, and is otherwise the same. *)
Theorem simulation_do_reset :
  ∀ (backend : Backend) (shots : option Z) (p_noise : option Q) (log : list Job),
    let '(_, data, _, _) := Sim6.prep_qubits in
    let plain := (Sim6.simulation backend shots p_noise (Some false) log).1.1 in
    let again := (Sim6.simulation backend shots p_noise (Some true) log).1.1 in
    (∀ do_reset,
       map job_circuit (drop (length log)
                          (Sim6.simulation backend shots p_noise do_reset log).2)
       = [(Sim6.simulation backend shots p_noise do_reset log).1.1])
    ∧ (Sim6.simulation backend shots p_noise None log).1.1 = plain
    ∧ again = with_ops plain (map Reset (qubits data) ++ spec_ghz_cascade data).
Proof.
  intros backend shots p_noise log. cbv beta iota zeta delta [Sim6.prep_qubits].
  split; [|split].
  - intros do_reset.
    unfold Sim6.simulation, run, mbind, Sim_bind, mret, Sim_ret. cbv zeta.
    cbn [Sim6.prep_qubits fst snd]. rewrite drop_app_length. reflexivity.
  - reflexivity.
  - lazy. reflexivity.
Qed.

(** X18: every circuit the four modules build has all its instructions in
    range (qubit indices inside their register, controlled gates on two
    different qubits, measurements into declared bits), declares exactly
    two classical bits and never touches an ancilla other than ancillas 0
    and 1, although the simulation modules allocate four. *)
Theorem strategy_circuits_in_range :
  ∀ (backend : Backend) (shots : option Z) (p p_leak : option Q) (do_reset : option bool),
    let good qc :=
      well_formed qc = true ∧ ancillas_below 2 qc = true ∧ num_clbits qc = 2%nat in
    Forall good
      (circuits (DD.circuit_mid_circuit backend shots p p_leak)
       ++ circuits (DD.circuit_deferred backend shots p p_leak)
       ++ circuits (DD.circuit_control backend shots p p_leak)
       ++ circuits (Sim6.simulation backend shots p do_reset)
       ++ circuits (Sim6.circuit_control backend shots p)
       ++ circuits (Sim6.circuit_deferred_measurement backend shots p)
       ++ [HW8.circuit_mid_circuit; HW8.circuit_deferred; HW8.circuit_control;
           V2.circuit_mid_circuit; V2.circuit_deferred; V2.circuit_control])
    ∧ length (circuits (DD.circuit_mid_circuit backend shots p p_leak)
              ++ circuits (DD.circuit_deferred backend shots p p_leak)
              ++ circuits (DD.circuit_control backend shots p p_leak)
              ++ circuits (Sim6.simulation backend shots p do_reset)
              ++ circuits (Sim6.circuit_control backend shots p)
              ++ circuits (Sim6.circuit_deferred_measurement backend shots p)) = 6%nat.
Proof.
  intros backend shots p p_leak do_reset good. subst good.
  split; [|reflexivity].
  destruct do_reset as [[|]|];
    repeat (apply Forall_cons; split; [repeat split; vm_compute; reflexivity|]);
    apply Forall_nil_2.
Qed.

(** ** Where the noise acts *)

Lemma fragment_op_names data o :
  o ∈ spec_dynamical_decoupling data ++ spec_leo data →
  op_name o = "x" ∨ op_name o = "barrier" ∨ op_name o = "y" ∨ op_name o = "z".
Proof.
  unfold spec_dynamical_decoupling, spec_leo. rewrite !elem_of_app.
  intros [[Hin|[Hin|Hin]]|Hin].
  - apply list_elem_of_fmap in Hin as (q & -> & _). auto.
  - apply list_elem_of_singleton in Hin as ->. auto.
  - apply list_elem_of_fmap in Hin as (q & -> & _). auto.
  - apply list_elem_of_fmap in Hin as (q & -> & _). auto.
Qed.

(** X19: the noise models attach channels to Hadamard and controlled-NOT
    instructions only.  Every other instruction runs without noise; in
    particular no instruction of a dynamical-decoupling or
    leakage-elimination fragment ever triggers a channel, whatever the
    noise strengths and the data register. *)
Theorem noise_only_on_h_and_cx :
  ∀ (p p_leak : Q) (data : QuantumRegister) (o : Operation),
    let nm8 := DD.leakage_noise_model (Some p) (Some p_leak) in
    let nm6 := Sim6.leakage_noise_model (Some p) in
    (channels_on nm8 (op_name o) ≠ [] ∨ channels_on nm6 (op_name o) ≠ [] →
       (∃ q, o = SingleQubitGate Kh q) ∨ (∃ c t, o = ControlledGate c t))
    ∧ (o ∈ spec_dynamical_decoupling data ++ spec_leo data →
       channels_on nm8 (op_name o) = [] ∧ channels_on nm6 (op_name o) = []).
Proof.
  intros p p_leak data o nm8 nm6. subst nm8 nm6. split.
  - intros Hnoisy.
    destruct o as [[| | |] q|c t|q b|q|]; eauto;
      (destruct Hnoisy as [Hn|Hn]; exfalso; apply Hn;
       [by apply DD_noise_other | by apply Sim6_noise_other]).
  - intros Hin. apply fragment_op_names in Hin.
    destruct Hin as [->|[->|[->| ->]]];
      (split; [by apply DD_noise_other | by apply Sim6_noise_other]).
Qed.

(** X20: within a module, the mid-circuit circuit and the deferred circuit
    contain the same number of Hadamard and of controlled-NOT
    instructions, the only instructions that carry noise: 32 and 30 in the
    8-qubit modules, 13 and 17 in the 6-qubit modules.  The strategies
    differ in the order of these gates and in when the ancillas are
    measured and reset, not in how many noisy gates they run. *)
Theorem strategies_run_equally_many_noisy_gates :
  ∀ (backend : Backend) (shots : option Z) (p p_leak : option Q),
    let noisy qc := (count_ops "h" qc, count_ops "cx" qc) in
    map noisy (circuits (DD.circuit_mid_circuit backend shots p p_leak)) = [(32, 30)%nat]
    ∧ map noisy (circuits (DD.circuit_deferred backend shots p p_leak)) = [(32, 30)%nat]
    ∧ noisy HW8.circuit_mid_circuit = (32, 30)%nat
    ∧ noisy HW8.circuit_deferred = (32, 30)%nat
    ∧ map noisy (circuits (Sim6.simulation backend shots p None)) = [(13, 17)%nat]
    ∧ map noisy (circuits (Sim6.circuit_deferred_measurement backend shots p))
      = [(13, 17)%nat]
    ∧ noisy V2.circuit_mid_circuit = (13, 17)%nat
    ∧ noisy V2.circuit_deferred = (13, 17)%nat.
Proof.
  intros backend shots p p_leak noisy. subst noisy.
  repeat split; lazy; reflexivity.
Qed.
